(** * Controller2D: the CARLA waypoint-follower control law

    A shallow embedding of [Course1FinalProject/controller2d.py] and the
    properties of its control cycle.

    Numbers.  The specification's data model takes positions, yaw, speed
    and target speeds to be real numbers, and so does this development:
    a Python/NumPy float is a real of [R], with exact arithmetic.  The two
    places where the source leaves the finite reals are kept as the source
    has them: the sentinel [float("inf")] of [update_desired_speed] and the
    quotient [5 * crosstrack_error / v], which NumPy evaluates to an
    infinity or to NaN when [v] is zero.  Both are values of [npfloat].

    Failures.  Python exceptions are outcomes of a state-and-exception
    monad over the controller object, so that what was stored before an
    exception stays stored, as it does in Python. *)

From Stdlib Require Import Reals Lra ZArith Lia List String.
From stdpp Require Import gmap strings.

Open Scope R_scope.

(** * The program *)

(** ** Floating-point values outside the finite reals *)

Inductive npfloat : Type :=
| Finite (r : R)
| PosInf
| NegInf
| NaN.

(** [a < b], [a > b] on floats: every comparison with NaN is false. *)
Definition np_lt (a b : npfloat) : bool :=
  match a, b with
  | NaN, _ | _, NaN => false
  | _, NegInf => false
  | NegInf, _ => true
  | PosInf, _ => false
  | Finite _, PosInf => true
  | Finite x, Finite y => if Rlt_dec x y then true else false
  end.

Definition np_gt (a b : npfloat) : bool := np_lt b a.

(** [a + b] and [a - b] with a finite right operand. *)
Definition np_add (a : npfloat) (b : R) : npfloat :=
  match a with
  | Finite x => Finite (x + b)
  | other => other
  end.

Definition np_sub (a : npfloat) (b : R) : npfloat :=
  match a with
  | Finite x => Finite (x - b)
  | other => other
  end.

(** NumPy's float64 division of finite operands: a zero divisor gives a
    signed infinity, or NaN for [0 / 0], with a warning and no exception. *)
Definition np_div (a b : R) : npfloat :=
  if Req_dec_T b 0 then
    if Rlt_dec 0 a then PosInf
    else if Rlt_dec a 0 then NegInf
    else NaN
  else Finite (a / b).

(** [np.arctan]. *)
Definition np_arctan (a : npfloat) : npfloat :=
  match a with
  | Finite x => Finite (atan x)
  | PosInf => Finite (PI / 2)
  | NegInf => Finite (- (PI / 2))
  | NaN => NaN
  end.

(** [np.arctan2(y, x)] on finite operands: the angle of the point
    [(x, y)], in [(-PI, PI]], and [0] at the origin. *)
Definition np_arctan2 (y x : R) : R :=
  if Rlt_dec 0 x then atan (y / x)
  else if Rlt_dec x 0 then
    if Rle_dec 0 y then atan (y / x) + PI else atan (y / x) - PI
  else if Rlt_dec 0 y then PI / 2
  else if Rlt_dec y 0 then - (PI / 2)
  else 0.

(** Python's built-in [max(lo, min(hi, s))] (lines 251-252), as one
    function into the reals.  [min(hi, s)] is [s] when [s < hi] and [hi]
    otherwise, so a NaN or [+inf] gives [hi]; [max(lo, m)] is [m] when
    [m > lo] and [lo] otherwise, so [-inf] gives [lo]. *)
Definition py_max_min (lo hi : R) (s : npfloat) : R :=
  match s with
  | Finite r =>
      let m := if Rlt_dec r hi then r else hi in
      if Rlt_dec lo m then m else lo
  | NegInf => lo
  | PosInf | NaN => if Rlt_dec lo hi then hi else lo
  end.

(** [l[i]] on a Python list: negative indices count from the end. *)
Definition py_getitem {A : Type} (l : list A) (i : Z) : option A :=
  let n := Z.of_nat (length l) in
  if (0 <=? i)%Z then nth_error l (Z.to_nat i)
  else if (- n <=? i)%Z then nth_error l (Z.to_nat (n + i))
  else None.

(** ** The persistent variables [self.vars] *)

(** Modelled from the spec: [cutils.CUtils] is not among the sources.  The
    controller's own documentation says that [create_var(name, default)]
    creates a persistent variable, not destroyed at each iteration, whose
    value is kept for the next iteration of the control loop; the
    specification says that the persistent state is initialised to zero at
    construction and never reset.  So [create_var] stores the default only
    when the name is not yet bound, and the object is a finite map from
    attribute names to values. *)
Module CUtils.

Definition create_var (var_name : string) (value : R)
    (vars : gmap string R) : gmap string R :=
  match vars !! var_name with
  | Some _ => vars
  | None => <[var_name := value]> vars
  end.

End CUtils.

(** ** The controller object *)

(** A waypoint is a row [[x, y, v]] of the path: a position and a target
    speed. *)
Definition waypoint : Type := R * R * R.

Definition wp_x (w : waypoint) : R := fst (fst w).
Definition wp_y (w : waypoint) : R := snd (fst w).
Definition wp_v (w : waypoint) : R := snd w.

Record Controller2D : Type := mkController2D {
  vars : gmap string R;
  _current_x : R;
  _current_y : R;
  _current_yaw : R;
  _current_speed : R;
  _desired_speed : R;
  _current_frame : Z;
  _current_timestamp : R;
  _start_control_loop : bool;
  _set_throttle : R;
  _set_brake : R;
  _set_steer : R;
  _waypoints : list waypoint
}.

(** The constants of the constructor (lines 26-28). *)
Definition _conv_rad_to_steer : R := 180 / 70 / PI.
Definition _pi : R := PI.
Definition _2pi : R := 2 * PI.

Definition __init__ (waypoints : list waypoint) : Controller2D :=
  {| vars := ∅;
     _current_x := 0;
     _current_y := 0;
     _current_yaw := 0;
     _current_speed := 0;
     _desired_speed := 0;
     _current_frame := 0%Z;
     _current_timestamp := 0;
     _start_control_loop := false;
     _set_throttle := 0;
     _set_brake := 0;
     _set_steer := 0;
     _waypoints := waypoints |}.

(** ** Exceptions and the method monad *)

Inductive exn : Type :=
| IndexError
| AttributeError
| UnboundLocalError.

Inductive outcome (A : Type) : Type :=
| Ok (a : A)
| Raise (e : exn).

Arguments Ok {A} a.
Arguments Raise {A} e.

(** A method runs on the controller object and either returns or raises;
    in both cases the object keeps what was stored so far. *)
Definition M (A : Type) : Type := Controller2D -> outcome A * Controller2D.

#[global] Instance M_ret : MRet M := λ A a c, (Ok a, c).

#[global] Instance M_bind : MBind M := λ A B f m c,
  match m c with
  | (Ok a, c') => f a c'
  | (Raise e, c') => (Raise e, c')
  end.

Definition raise {A : Type} (e : exn) : M A := λ c, (Raise e, c).
Definition get_state : M Controller2D := λ c, (Ok c, c).
Definition modify (f : Controller2D -> Controller2D) : M unit :=
  λ c, (Ok tt, f c).

Definition getitem {A : Type} (l : list A) (i : Z) : M A :=
  match py_getitem l i with
  | Some a => mret a
  | None => raise IndexError
  end.

(** Attribute access on [self.vars]. *)
Definition set_vars (f : gmap string R -> gmap string R)
    (c : Controller2D) : Controller2D :=
  {| vars := f (vars c);
     _current_x := _current_x c;
     _current_y := _current_y c;
     _current_yaw := _current_yaw c;
     _current_speed := _current_speed c;
     _desired_speed := _desired_speed c;
     _current_frame := _current_frame c;
     _current_timestamp := _current_timestamp c;
     _start_control_loop := _start_control_loop c;
     _set_throttle := _set_throttle c;
     _set_brake := _set_brake c;
     _set_steer := _set_steer c;
     _waypoints := _waypoints c |}.

Definition create_var (name : string) (value : R) : M unit :=
  modify (set_vars (CUtils.create_var name value)).

Definition getattr (name : string) : M R := λ c,
  match vars c !! name with
  | Some r => (Ok r, c)
  | None => (Raise AttributeError, c)
  end.

Definition setattr (name : string) (value : R) : M unit :=
  modify (set_vars <[name := value]>).

(** ** The methods of [Controller2D] *)

Definition update_values (x y yaw speed timestamp : R) (frame : Z)
    (c : Controller2D) : Controller2D :=
  {| vars := vars c;
     _current_x := x;
     _current_y := y;
     _current_yaw := yaw;
     _current_speed := speed;
     _desired_speed := _desired_speed c;
     _current_frame := frame;
     _current_timestamp := timestamp;
     _start_control_loop :=
       if (frame =? 0)%Z then _start_control_loop c else true;
     _set_throttle := _set_throttle c;
     _set_brake := _set_brake c;
     _set_steer := _set_steer c;
     _waypoints := _waypoints c |}.

Definition set_desired_speed (desired_speed : R)
    (c : Controller2D) : Controller2D :=
  {| vars := vars c;
     _current_x := _current_x c;
     _current_y := _current_y c;
     _current_yaw := _current_yaw c;
     _current_speed := _current_speed c;
     _desired_speed := desired_speed;
     _current_frame := _current_frame c;
     _current_timestamp := _current_timestamp c;
     _start_control_loop := _start_control_loop c;
     _set_throttle := _set_throttle c;
     _set_brake := _set_brake c;
     _set_steer := _set_steer c;
     _waypoints := _waypoints c |}.

(** [np.linalg.norm(np.array([dx, dy]))]. *)
Definition norm2 (dx dy : R) : R := sqrt (dx * dx + dy * dy).

(** The loop of [update_desired_speed] (lines 44-50) over the waypoints
    from index [i] on, carrying [(min_idx, min_dist)]. *)
Fixpoint desired_speed_scan (x y : R) (wps : list waypoint) (i : Z)
    (min_idx : Z) (min_dist : npfloat) : Z * npfloat :=
  match wps with
  | [] => (min_idx, min_dist)
  | w :: rest =>
      let dist := norm2 (wp_x w - x) (wp_y w - y) in
      if np_lt (Finite dist) min_dist
      then desired_speed_scan x y rest (i + 1) i (Finite dist)
      else desired_speed_scan x y rest (i + 1) min_idx min_dist
  end.

(** [min_idx] after the loop, from [min_idx = 0] and
    [min_dist = float("inf")] (lines 41-50). *)
Definition desired_speed_index (c : Controller2D) : Z :=
  fst (desired_speed_scan (_current_x c) (_current_y c) (_waypoints c)
         0 0 PosInf).

Definition update_desired_speed : M unit :=
  c ← get_state;
  let min_idx := desired_speed_index c in
  w ← (if (min_idx <? Z.of_nat (length (_waypoints c)) - 1)%Z
       then getitem (_waypoints c) min_idx
       else getitem (_waypoints c) (-1));
  modify (set_desired_speed (wp_v w)).

Definition update_waypoints (new_waypoints : list waypoint)
    (c : Controller2D) : Controller2D :=
  {| vars := vars c;
     _current_x := _current_x c;
     _current_y := _current_y c;
     _current_yaw := _current_yaw c;
     _current_speed := _current_speed c;
     _desired_speed := _desired_speed c;
     _current_frame := _current_frame c;
     _current_timestamp := _current_timestamp c;
     _start_control_loop := _start_control_loop c;
     _set_throttle := _set_throttle c;
     _set_brake := _set_brake c;
     _set_steer := _set_steer c;
     _waypoints := new_waypoints |}.

(** The command, in the source's order: throttle, steer, brake. *)
Definition get_commands (c : Controller2D) : R * R * R :=
  (_set_throttle c, _set_steer c, _set_brake c).

(** [np.fmin] and [np.fmax] on finite operands are [Rmin] and [Rmax]. *)
Definition set_throttle (input_throttle : R) (c : Controller2D)
    : Controller2D :=
  let throttle := Rmax (Rmin input_throttle 1) 0 in
  {| vars := vars c;
     _current_x := _current_x c;
     _current_y := _current_y c;
     _current_yaw := _current_yaw c;
     _current_speed := _current_speed c;
     _desired_speed := _desired_speed c;
     _current_frame := _current_frame c;
     _current_timestamp := _current_timestamp c;
     _start_control_loop := _start_control_loop c;
     _set_throttle := throttle;
     _set_brake := _set_brake c;
     _set_steer := _set_steer c;
     _waypoints := _waypoints c |}.

Definition set_steer (input_steer_in_rad : R) (c : Controller2D)
    : Controller2D :=
  let input_steer := _conv_rad_to_steer * input_steer_in_rad in
  let steer := Rmax (Rmin input_steer 1) (-1) in
  {| vars := vars c;
     _current_x := _current_x c;
     _current_y := _current_y c;
     _current_yaw := _current_yaw c;
     _current_speed := _current_speed c;
     _desired_speed := _desired_speed c;
     _current_frame := _current_frame c;
     _current_timestamp := _current_timestamp c;
     _start_control_loop := _start_control_loop c;
     _set_throttle := _set_throttle c;
     _set_brake := _set_brake c;
     _set_steer := steer;
     _waypoints := _waypoints c |}.

Definition set_brake (input_brake : R) (c : Controller2D) : Controller2D :=
  let brake := Rmax (Rmin input_brake 1) 0 in
  {| vars := vars c;
     _current_x := _current_x c;
     _current_y := _current_y c;
     _current_yaw := _current_yaw c;
     _current_speed := _current_speed c;
     _desired_speed := _desired_speed c;
     _current_frame := _current_frame c;
     _current_timestamp := _current_timestamp c;
     _start_control_loop := _start_control_loop c;
     _set_throttle := _set_throttle c;
     _set_brake := brake;
     _set_steer := _set_steer c;
     _waypoints := _waypoints c |}.

(** *** The control cycle *)

(** The longitudinal gains (lines 170-172). *)
Definition K_p : R := 0.2.
Definition K_d : R := 0.05.
Definition K_i : R := 0.01.

(** The nearest-waypoint loop of the lateral controller (lines 203-208)
    over the waypoints from index [i] on, carrying [(idx, dist)]. *)
Fixpoint nearest_scan (x y : R) (wps : list waypoint) (i : Z)
    (idx : Z) (dist : R) : Z * R :=
  match wps with
  | [] => (idx, dist)
  | w :: rest =>
      let dist1 := sqrt ((wp_x w - x) ^ 2 + (wp_y w - y) ^ 2) in
      if Rlt_dec dist1 dist
      then nearest_scan x y rest (i + 1) i dist1
      else nearest_scan x y rest (i + 1) idx dist
  end.

(** [idx] after the loop, from [idx = len(self._waypoints) - 1] and
    [dist = 10000000] (lines 197-208). *)
Definition nearest_index (c : Controller2D) : Z :=
  fst (nearest_scan (_current_x c) (_current_y c) (_waypoints c) 0
         (Z.of_nat (length (_waypoints c)) - 1) 10000000).

(** The look-ahead index [idy] (lines 210-213). *)
Definition look_ahead (idx len : Z) : Z :=
  if (idx <? len - 18)%Z then (idx + 17)%Z else (len - 1)%Z.

(** The heading error's wrap (lines 223-228). *)
Definition normalize_theta_fai (theta_fai : R) : R :=
  if Rlt_dec PI theta_fai then theta_fai - 2 * PI
  else if Rlt_dec theta_fai (- PI) then theta_fai + 2 * PI
  else theta_fai.

(** The wrap of [steer_expect] (lines 247-250): two independent tests. *)
Definition normalize_steer_expect (steer_expect : npfloat) : npfloat :=
  let s :=
    if np_gt steer_expect (Finite PI)
    then np_sub steer_expect (2 * PI) else steer_expect in
  if np_lt s (Finite (- PI)) then np_add s (2 * PI) else s.

(** Line 243, from the cross-track error and the speed. *)
Definition yaw_diff_crosstrack (crosstrack_error v : R) : npfloat :=
  np_arctan (np_div (5 * crosstrack_error) v).

(** The lateral controller (lines 197-256); returns [steer_output]. *)
Definition lateral_controller (x y yaw v : R) : M R :=
  c ← get_state;
  let waypoints := _waypoints c in
  let len := Z.of_nat (length waypoints) in
  let idx := nearest_index c in
  let idy := look_ahead idx len in
  wy ← getitem waypoints idy;
  wx ← getitem waypoints idx;
  let alpha := np_arctan2 (wp_y wy - wp_y wx) (wp_x wy - wp_x wx) in
  let laterr :=
    (_current_x c - wp_x wx) * sin alpha
    + (_current_y c - wp_y wx) * cos alpha in
  let yaw_path := np_arctan2 (wp_y wy - wp_y wx) (wp_x wy - wp_x wx) in
  let theta_fai := normalize_theta_fai (yaw_path - yaw) in
  w0 ← getitem waypoints 0;
  let yaw_cross_track := np_arctan2 (y - wp_y w0) (x - wp_x w0) in
  let yaw_path2ct := yaw_path - yaw_cross_track in
  let yaw_path2ct :=
    if Rlt_dec PI yaw_path2ct then yaw_path2ct - 2 * PI else yaw_path2ct in
  let yaw_path2ct :=
    if Rlt_dec yaw_path2ct (- PI) then yaw_path2ct + 2 * PI
    else yaw_path2ct in
  let crosstrack_error :=
    if Rlt_dec 0 theta_fai then Rabs laterr else - Rabs laterr in
  let steer_expect :=
    np_add (yaw_diff_crosstrack crosstrack_error v) theta_fai in
  let steer_expect := normalize_steer_expect steer_expect in
  mret (py_max_min (-1.22) 1.22 steer_expect).

(** The longitudinal controller (lines 170-183); returns
    [(throttle_output, brake_output)], which start at 0 (lines 93-95). *)
Definition longitudinal_controller : M (R * R) :=
  c ← get_state;
  let error_v := _desired_speed c - _current_speed c in
  e_total ← getattr "e_total";
  setattr "e_total" (e_total + error_v);;
  e_total ← getattr "e_total";
  e_previous ← getattr "e_previous";
  let target_acc :=
    K_p * error_v + K_i * e_total + K_d * (error_v - e_previous) in
  let outputs :=
    if Rlt_dec target_acc 0 then (0, Rabs target_acc) else (target_acc, 0) in
  setattr "e_previous" error_v;;
  mret outputs.

(** [update_controls].  The local [s1] is bound only inside the branch of
    line 123: it is [Some] value there and [None], unbound, otherwise, and
    reading it unbound at line 285 raises. *)
Definition update_controls : M unit :=
  c ← get_state;
  let x := _current_x c in
  let y := _current_y c in
  let yaw := _current_yaw c in
  let v := _current_speed c in
  update_desired_speed;;
  create_var "v_previous" 0;;
  create_var "e_previous" 0;;
  create_var "e_total" 0;;
  create_var "steer_output_p" 0;;
  s1 ← (if _start_control_loop c then
          '(throttle_output, brake_output) ← longitudinal_controller;
          steer_output ← lateral_controller x y yaw v;
          modify (set_throttle throttle_output);;
          modify (set_steer steer_output);;
          modify (set_brake brake_output);;
          mret (Some steer_output)
        else mret None);
  setattr "v_previous" v;;
  match s1 with
  | Some s => setattr "steer_output_p" s
  | None => raise UnboundLocalError
  end.

(** * What a cycle computes *)

(** The persistent variables after the four calls of [create_var] at lines
    117-120. *)
Definition declare_vars (m : gmap string R) : gmap string R :=
  CUtils.create_var "steer_output_p" 0
    (CUtils.create_var "e_total" 0
       (CUtils.create_var "e_previous" 0
          (CUtils.create_var "v_previous" 0 m))).

(** [target_acc] (line 176) from the error, the integral and the previous
    error. *)
Definition target_acc_of (error_v e_total e_previous : R) : R :=
  K_p * error_v + K_i * e_total + K_d * (error_v - e_previous).

(** [(throttle_output, brake_output)] after lines 178-181. *)
Definition outputs_of (target_acc : R) : R * R :=
  if Rlt_dec target_acc 0 then (0, Rabs target_acc) else (target_acc, 0).

(** The controller object after a cycle in the active branch, from the
    desired speed [ds] found by [update_desired_speed] and the steering
    angle [steer] returned by the lateral controller. *)
Definition active_state (c : Controller2D) (ds steer : R) : Controller2D :=
  let error_v := ds - _current_speed c in
  let e_total := default 0 (vars c !! "e_total") + error_v in
  let e_previous := default 0 (vars c !! "e_previous") in
  let outputs := outputs_of (target_acc_of error_v e_total e_previous) in
  {| vars :=
       <["steer_output_p" := steer]>
         (<["v_previous" := _current_speed c]>
            (<["e_previous" := error_v]>
               (<["e_total" := e_total]> (declare_vars (vars c)))));
     _current_x := _current_x c;
     _current_y := _current_y c;
     _current_yaw := _current_yaw c;
     _current_speed := _current_speed c;
     _desired_speed := ds;
     _current_frame := _current_frame c;
     _current_timestamp := _current_timestamp c;
     _start_control_loop := _start_control_loop c;
     _set_throttle := Rmax (Rmin (fst outputs) 1) 0;
     _set_brake := Rmax (Rmin (snd outputs) 1) 0;
     _set_steer := Rmax (Rmin (_conv_rad_to_steer * steer) 1) (-1);
     _waypoints := _waypoints c |}.

(** The steering angle of lines 215-252 from the nearest waypoint [wx], the
    look-ahead waypoint [wy], the position, the yaw and the speed. *)
Definition steer_from (wx wy : waypoint) (x y yaw v : R) : R :=
  let yaw_path := np_arctan2 (wp_y wy - wp_y wx) (wp_x wy - wp_x wx) in
  let laterr := (x - wp_x wx) * sin yaw_path + (y - wp_y wx) * cos yaw_path in
  let theta_fai := normalize_theta_fai (yaw_path - yaw) in
  let crosstrack_error :=
    if Rlt_dec 0 theta_fai then Rabs laterr else - Rabs laterr in
  py_max_min (-1.22) 1.22
    (normalize_steer_expect
       (np_add (yaw_diff_crosstrack crosstrack_error v) theta_fai)).

(** * The speed controller of the specification *)

(** The speed controller as the specification words it (section 4.2): the
    law, the output mapping, the saturation to [[0, 1]] and the update of
    the persisted state. *)
Module Spec.

Definition Kp : R := 0.2.
Definition Ki : R := 0.01.
Definition Kd : R := 0.05.

Record SpeedState : Type := {
  integral : R;
  previous_error : R
}.

(** Values beyond the range are saturated, not renormalised. *)
Definition saturate (u : R) : R :=
  if Rlt_dec u 0 then 0 else if Rlt_dec 1 u then 1 else u.

Definition target_acceleration (desired_speed current_speed : R)
    (st : SpeedState) : R :=
  let error := desired_speed - current_speed in
  let integral := integral st + error in
  let derivative := error - previous_error st in
  Kp * error + Ki * integral + Kd * derivative.

Definition speed_controller (desired_speed current_speed : R)
    (st : SpeedState) : R * R * SpeedState :=
  let error := desired_speed - current_speed in
  let target := target_acceleration desired_speed current_speed st in
  let throttle := if Rlt_dec target 0 then 0 else target in
  let brake := if Rlt_dec target 0 then Rabs target else 0 in
  (saturate throttle, saturate brake,
   {| integral := integral st + error; previous_error := error |}).

End Spec.

(** The persisted integral and previous error a cycle starts from: what
    [self.vars] holds, or the defaults of lines 118-119. *)
Definition speed_state (c : Controller2D) : Spec.SpeedState :=
  {| Spec.integral := default 0 (vars c !! "e_total");
     Spec.previous_error := default 0 (vars c !! "e_previous") |}.

(** * Nearest waypoints and command bounds *)

(** The Euclidean distance from the position [(x, y)] to a waypoint. *)
Definition distance (x y : R) (w : waypoint) : R :=
  sqrt ((wp_x w - x) ^ 2 + (wp_y w - y) ^ 2).

(** [w], at index [k] of the path, is the first waypoint of least
    distance: no waypoint is nearer, and those before it are farther. *)
Definition least_at (x y : R) (wps : list waypoint) (k : nat)
    (w : waypoint) : Prop :=
  nth_error wps k = Some w
  /\ forall j wj, nth_error wps j = Some wj ->
       distance x y w <= distance x y wj
       /\ ((j < k)%nat -> distance x y w < distance x y wj).

(** [idx] is the smallest index among those minimising the distance. *)
Definition first_nearest (x y : R) (wps : list waypoint) (idx : Z) : Prop :=
  (0 <= idx)%Z /\ exists w, least_at x y wps (Z.to_nat idx) w.

(** The documented bounds of a command [(throttle, steer, brake)]. *)
Definition in_bounds (cmd : R * R * R) : Prop :=
  let '(throttle, steer, brake) := cmd in
  0 <= throttle <= 1 /\ -1 <= steer <= 1 /\ 0 <= brake <= 1.

(** Exactly one of throttle and brake is non-zero. *)
Definition exactly_one_nonzero (throttle brake : R) : Prop :=
  (throttle <> 0 /\ brake = 0) \/ (throttle = 0 /\ brake <> 0).

(** * Driving the controller *)

(** The calls a client can make on the object.  A call that raises leaves
    the object as the exception found it. *)
Inductive call : Type :=
| Call_update_values (x y yaw speed timestamp : R) (frame : Z)
| Call_update_desired_speed
| Call_update_waypoints (new_waypoints : list waypoint)
| Call_set_throttle (input_throttle : R)
| Call_set_steer (input_steer_in_rad : R)
| Call_set_brake (input_brake : R)
| Call_update_controls.

Definition step (c : Controller2D) (k : call) : Controller2D :=
  match k with
  | Call_update_values x y yaw speed timestamp frame =>
      update_values x y yaw speed timestamp frame c
  | Call_update_desired_speed => snd (update_desired_speed c)
  | Call_update_waypoints new_waypoints => update_waypoints new_waypoints c
  | Call_set_throttle input_throttle => set_throttle input_throttle c
  | Call_set_steer input_steer_in_rad => set_steer input_steer_in_rad c
  | Call_set_brake input_brake => set_brake input_brake c
  | Call_update_controls => snd (update_controls c)
  end.

Definition run (ks : list call) (c : Controller2D) : Controller2D :=
  fold_left step ks c.

(** * Example controllers *)

(** The path of the specification's scenarios. *)
Definition spec_path : list waypoint := [(0, 0, 5); (10, 0, 5); (20, 0, 5)].

(** A controller that has only seen frame 0. *)
Definition warmup_example : Controller2D :=
  update_values 0 0 0 0 0 0 (__init__ spec_path).

(** The first active cycle of the specification's scenario: the vehicle
    stands at the first waypoint of [spec_path], frame 1. *)
Definition standstill_example : Controller2D :=
  update_values 0 0 0 0 0 1 (__init__ spec_path).

(** An active cycle at the target speed: the vehicle moves at 5 m/s along
    [spec_path], whose target speed is 5 m/s. *)
Definition cruise_example : Controller2D :=
  update_values 0 0 0 5 0 1 (__init__ spec_path).

(** A path whose waypoints are all farther than 10000000 m from the
    vehicle, which stands at the origin. *)
Definition far_path : list waypoint :=
  [(20000000, 0, 5); (30000000, 0, 5)].

Definition far_example : Controller2D :=
  update_values 0 0 0 5 0 1 (__init__ far_path).

(** * Notions for the further properties *)

(** The pose, the path and the latch that a cycle reads and keeps. *)
Definition same_inputs (c c' : Controller2D) : Prop :=
  _start_control_loop c' = _start_control_loop c
  /\ _waypoints c' = _waypoints c
  /\ _current_x c' = _current_x c
  /\ _current_y c' = _current_y c
  /\ _current_speed c' = _current_speed c.

(** The signed lateral offset [laterr] of line 216 for a position. *)
Definition laterr_of (wx wy : waypoint) (x y : R) : R :=
  let alpha := np_arctan2 (wp_y wy - wp_y wx) (wp_x wy - wp_x wx) in
  (x - wp_x wx) * sin alpha + (y - wp_y wx) * cos alpha.

(** The call is an [update_values] with a non-zero frame index. *)
Definition observes_nonzero_frame (k : call) : bool :=
  match k with
  | Call_update_values _ _ _ _ _ frame => negb (frame =? 0)%Z
  | _ => false
  end.

(** * Properties *)

(** Unfolds the binds of a method down to matches on outcomes. *)
Ltac run_method := unfold mbind, M_bind, get_state; cbv zeta.

(** ** Persistent variables *)

Lemma create_var_lookup (k k' : string) (d : R) (m : gmap string R) :
  CUtils.create_var k d m !! k' =
  if decide (k = k') then Some (default d (m !! k)) else m !! k'.
Proof.
  unfold CUtils.create_var.
  destruct (m !! k) eqn:E; case_decide; simplify_map_eq; done.
Qed.

Lemma declare_vars_e_total m :
  declare_vars m !! "e_total" = Some (default 0 (m !! "e_total")).
Proof.
  unfold declare_vars. rewrite !create_var_lookup.
  repeat (case_decide; try done).
Qed.

Lemma declare_vars_e_previous m :
  declare_vars m !! "e_previous" = Some (default 0 (m !! "e_previous")).
Proof.
  unfold declare_vars. rewrite !create_var_lookup.
  repeat (case_decide; try done).
Qed.

(** ** Indexing the path *)

Lemma py_getitem_nonneg {A} (l : list A) (i : Z) :
  (0 <= i < Z.of_nat (length l))%Z ->
  py_getitem l i = nth_error l (Z.to_nat i)
  /\ is_Some (nth_error l (Z.to_nat i)).
Proof.
  intros H. unfold py_getitem.
  destruct (Z.leb_spec 0 i); [|lia]. split; [done|].
  destruct (nth_error l (Z.to_nat i)) eqn:E; eauto.
  apply nth_error_None in E. lia.
Qed.

Lemma py_getitem_last {A} (l : list A) :
  l <> [] ->
  py_getitem l (-1) = nth_error l (Z.to_nat (Z.of_nat (length l) - 1)).
Proof.
  intros H. unfold py_getitem.
  assert (0 < length l)%nat by (destruct l; [done | cbn; lia]).
  destruct (Z.leb_spec 0 (-1)); [lia|].
  destruct (Z.leb_spec (- Z.of_nat (length l)) (-1)); [|lia].
  f_equal.
Qed.

Lemma getitem_ok {A} (l : list A) (i : Z) :
  (0 <= i < Z.of_nat (length l))%Z ->
  exists a, py_getitem l i = Some a.
Proof.
  intros H. destruct (py_getitem_nonneg l i H) as [-> [a ->]]. eauto.
Qed.

(** ** The desired speed *)

Lemma desired_speed_scan_range x y wps : forall i min_idx min_dist,
  let r := fst (desired_speed_scan x y wps i min_idx min_dist) in
  r = min_idx \/ (i <= r < i + Z.of_nat (length wps))%Z.
Proof.
  induction wps as [|w rest IH]; intros i min_idx min_dist; cbn -[np_lt].
  - by left.
  - destruct (np_lt _ _).
    + right.
      specialize (IH (i + 1)%Z i
                    (Finite (norm2 (wp_x w - x) (wp_y w - y)))).
      cbn zeta in IH. lia.
    + specialize (IH (i + 1)%Z min_idx min_dist). cbn zeta in IH. lia.
Qed.

Lemma update_desired_speed_ok (c : Controller2D) :
  _waypoints c <> [] ->
  exists w,
    nth_error (_waypoints c) (Z.to_nat (desired_speed_index c)) = Some w
    /\ update_desired_speed c = (Ok tt, set_desired_speed (wp_v w) c).
Proof.
  intros Hne.
  assert (0 < length (_waypoints c))%nat as Hlen
    by (destruct (_waypoints c); [done | cbn; lia]).
  assert (0 <= desired_speed_index c
          < Z.of_nat (length (_waypoints c)))%Z as Hr.
  { pose proof (desired_speed_scan_range (_current_x c) (_current_y c)
                  (_waypoints c) 0 0 PosInf) as H.
    cbn zeta in H. unfold desired_speed_index. lia. }
  destruct (py_getitem_nonneg (_waypoints c) _ Hr) as [Hg [w Hw]].
  exists w. split; [done|].
  unfold update_desired_speed. run_method.
  fold (desired_speed_index c).
  destruct (Z.ltb_spec (desired_speed_index c)
              (Z.of_nat (length (_waypoints c)) - 1)).
  - unfold getitem. rewrite Hg, Hw. done.
  - unfold getitem. rewrite py_getitem_last by done.
    replace (Z.of_nat (length (_waypoints c)) - 1)%Z
      with (desired_speed_index c) by lia.
    rewrite Hw. done.
Qed.

(** ** The lateral controller *)

Lemma nearest_scan_range x y wps : forall i idx dist,
  let r := fst (nearest_scan x y wps i idx dist) in
  r = idx \/ (i <= r < i + Z.of_nat (length wps))%Z.
Proof.
  induction wps as [|w rest IH]; intros i idx dist; cbn.
  - by left.
  - destruct (Rlt_dec _ _).
    + right.
      specialize (IH (i + 1)%Z i
                    (sqrt ((wp_x w - x) ^ 2 + (wp_y w - y) ^ 2))).
      cbn zeta in IH. cbn in IH. lia.
    + specialize (IH (i + 1)%Z idx dist). cbn zeta in IH. lia.
Qed.

Lemma look_ahead_range (idx len : Z) :
  (0 <= idx < len)%Z -> (idx <= look_ahead idx len < len)%Z.
Proof.
  intros H. unfold look_ahead.
  destruct (Z.ltb_spec idx (len - 18)); lia.
Qed.

Lemma nearest_index_range (c : Controller2D) :
  _waypoints c <> [] ->
  (0 <= nearest_index c < Z.of_nat (length (_waypoints c)))%Z.
Proof.
  intros Hne.
  assert (0 < length (_waypoints c))%nat
    by (destruct (_waypoints c); [done | cbn; lia]).
  pose proof (nearest_scan_range (_current_x c) (_current_y c)
                (_waypoints c) 0
                (Z.of_nat (length (_waypoints c)) - 1) 10000000) as H'.
  cbn zeta in H'. unfold nearest_index. lia.
Qed.

Lemma lateral_controller_ok (x y yaw v : R) (c : Controller2D) :
  _waypoints c <> [] ->
  exists s, lateral_controller x y yaw v c = (Ok s, c).
Proof.
  intros Hne. pose proof (nearest_index_range c Hne) as Hidx.
  pose proof (look_ahead_range _ _ Hidx) as Hidy.
  destruct (getitem_ok (_waypoints c) (nearest_index c)) as [wx Hx]; [lia|].
  destruct (getitem_ok (_waypoints c)
              (look_ahead (nearest_index c)
                 (Z.of_nat (length (_waypoints c))))) as [wy Hy]; [lia|].
  destruct (getitem_ok (_waypoints c) 0) as [w0 H0]; [lia|].
  unfold lateral_controller, getitem. run_method.
  fold (nearest_index c). rewrite Hx, Hy, H0. cbn. eauto.
Qed.

Lemma lateral_controller_frame (x y yaw v s : R) (c c2 : Controller2D) :
  _waypoints c2 = _waypoints c ->
  _current_x c2 = _current_x c ->
  _current_y c2 = _current_y c ->
  lateral_controller x y yaw v c = (Ok s, c) ->
  lateral_controller x y yaw v c2 = (Ok s, c2).
Proof.
  intros Hw Hx Hy.
  assert (nearest_index c2 = nearest_index c) as Hn
    by (unfold nearest_index; rewrite Hw, Hx, Hy; reflexivity).
  unfold lateral_controller, getitem. run_method.
  rewrite Hn, Hw, Hx, Hy.
  repeat match goal with
         | |- context [py_getitem ?l ?i] => destruct (py_getitem l i)
         end; cbn; try discriminate.
  intros [= <-]. reflexivity.
Qed.

(** ** The longitudinal controller *)

Lemma longitudinal_controller_ok (c : Controller2D) (et ep : R) :
  vars c !! "e_total" = Some et ->
  vars c !! "e_previous" = Some ep ->
  let error_v := _desired_speed c - _current_speed c in
  longitudinal_controller c =
    (Ok (outputs_of (target_acc_of error_v (et + error_v) ep)),
     set_vars (fun m => <["e_previous" := error_v]>
                          (<["e_total" := et + error_v]> m)) c).
Proof.
  intros Ht Hp error_v.
  unfold longitudinal_controller, getattr, setattr, modify. run_method.
  rewrite Ht. cbn [vars set_vars].
  rewrite lookup_insert_eq. cbn [vars set_vars].
  rewrite lookup_insert_ne, Hp by done.
  reflexivity.
Qed.

(** ** One cycle of [update_controls] *)

(** A cycle before the latch is set, on a non-empty path. *)
Lemma update_controls_warmup (c : Controller2D) :
  _start_control_loop c = false ->
  _waypoints c <> [] ->
  exists w,
    nth_error (_waypoints c) (Z.to_nat (desired_speed_index c)) = Some w
    /\ update_controls c
       = (Raise UnboundLocalError,
          set_vars
            (fun m => <["v_previous" := _current_speed c]> (declare_vars m))
            (set_desired_speed (wp_v w) c)).
Proof.
  intros Hs Hne. destruct (update_desired_speed_ok c Hne) as (w & Hw & Hu).
  exists w. split; [done|].
  unfold update_controls. run_method. rewrite Hu, Hs. reflexivity.
Qed.

(** A cycle after the latch is set, on a non-empty path. *)
Lemma update_controls_active (c : Controller2D) :
  _start_control_loop c = true -> _waypoints c <> [] ->
  exists w steer,
    nth_error (_waypoints c) (Z.to_nat (desired_speed_index c)) = Some w /\
    lateral_controller (_current_x c) (_current_y c) (_current_yaw c)
      (_current_speed c) c = (Ok steer, c) /\
    update_controls c = (Ok tt, active_state c (wp_v w) steer).
Proof.
  intros Hs Hne. destruct (update_desired_speed_ok c Hne) as (w & Hw & Hu).
  destruct (lateral_controller_ok (_current_x c) (_current_y c)
              (_current_yaw c) (_current_speed c) c Hne) as [steer Hl].
  exists w, steer. split; [done|]. split; [done|].
  unfold update_controls. run_method. rewrite Hu, Hs.
  unfold create_var, modify.
  change (set_vars (CUtils.create_var "steer_output_p" 0)
            (set_vars (CUtils.create_var "e_total" 0)
               (set_vars (CUtils.create_var "e_previous" 0)
                  (set_vars (CUtils.create_var "v_previous" 0)
                     (set_desired_speed (wp_v w) c)))))
    with (set_vars declare_vars (set_desired_speed (wp_v w) c)).
  set (c1 := set_vars declare_vars (set_desired_speed (wp_v w) c)).
  rewrite (longitudinal_controller_ok c1 _ _
             (declare_vars_e_total (vars c))
             (declare_vars_e_previous (vars c))).
  cbv zeta.
  destruct (outputs_of _) as [throttle_output brake_output] eqn:Ho.
  match goal with
  | |- context [lateral_controller _ _ _ _ ?c2] =>
      rewrite (lateral_controller_frame _ _ _ _ steer c c2) by done
  end.
  unfold setattr, modify, active_state. cbv zeta.
  subst c1. cbn [vars set_vars set_desired_speed _desired_speed
                 _current_speed set_throttle set_steer set_brake
                 _current_x _current_y _current_yaw _current_frame
                 _current_timestamp _start_control_loop _set_throttle
                 _set_brake _set_steer _waypoints] in *.
  rewrite Ho. reflexivity.
Qed.

(** On an empty path the desired-speed lookup fails first. *)
Lemma update_controls_empty (c : Controller2D) :
  _waypoints c = [] -> update_controls c = (Raise IndexError, c).
Proof.
  intros He.
  unfold update_controls, update_desired_speed, desired_speed_index.
  run_method. rewrite He. reflexivity.
Qed.

(** ** What every call preserves *)

Lemma clamp_bounds (x lo hi : R) :
  lo <= hi -> lo <= Rmax (Rmin x hi) lo <= hi.
Proof.
  intros H. split.
  - apply Rmax_r.
  - apply Rmax_lub; [apply Rmin_r | exact H].
Qed.

Lemma update_desired_speed_state (c : Controller2D) :
  exists ds, snd (update_desired_speed c) = c
             \/ snd (update_desired_speed c) = set_desired_speed ds c.
Proof.
  destruct (_waypoints c) as [|w0 ws] eqn:E.
  - exists 0. left.
    unfold update_desired_speed, desired_speed_index. run_method.
    rewrite E. reflexivity.
  - destruct (update_desired_speed_ok c) as (w & _ & ->); [by rewrite E|].
    exists (wp_v w). by right.
Qed.

Lemma update_controls_cases (c : Controller2D) :
  update_controls c = (Raise IndexError, c)
  \/ (get_commands (snd (update_controls c)) = get_commands c
      /\ _start_control_loop (snd (update_controls c)) = _start_control_loop c
      /\ fst (update_controls c) = Raise UnboundLocalError)
  \/ exists ds steer, update_controls c = (Ok tt, active_state c ds steer).
Proof.
  destruct (_waypoints c) as [|w0 ws] eqn:E.
  - left. by apply update_controls_empty.
  - assert (_waypoints c <> []) as Hne by (by rewrite E).
    destruct (_start_control_loop c) eqn:Hs.
    + right. right.
      destruct (update_controls_active c Hs Hne) as (w & s & _ & _ & ->).
      eauto.
    + right. left.
      destruct (update_controls_warmup c Hs Hne) as (w & _ & ->). done.
Qed.

Lemma step_in_bounds (c : Controller2D) (k : call) :
  in_bounds (get_commands c) -> in_bounds (get_commands (step c k)).
Proof.
  unfold in_bounds, get_commands. intros (Ht & Hs & Hb).
  destruct k; cbn [step]; try (cbn; done).
  - destruct (update_desired_speed_state c) as [ds [-> | ->]]; done.
  - cbn. split; [|done]. apply clamp_bounds; lra.
  - cbn. split; [done|]. split; [|done]. apply clamp_bounds; lra.
  - cbn. split; [done|]. split; [done|]. apply clamp_bounds; lra.
  - destruct (update_controls_cases c)
      as [-> | [(Hc & _ & _) | (ds & steer & ->)]]; [done | |].
    + unfold get_commands in Hc. injection Hc as -> -> ->. done.
    + cbn. repeat split; apply clamp_bounds; lra.
Qed.

Lemma step_latch (c : Controller2D) (k : call) :
  _start_control_loop c = true -> _start_control_loop (step c k) = true.
Proof.
  intros H. destruct k; cbn [step]; try (cbn; done).
  - cbn. rewrite H. by destruct (frame =? 0)%Z.
  - destruct (update_desired_speed_state c) as [ds [-> | ->]]; done.
  - destruct (update_controls_cases c)
      as [-> | [(_ & -> & _) | (ds & steer & ->)]]; done.
Qed.

(** ** Warm-up cycles *)

(** C1, at the failing input.  On a fresh controller that has observed only
    frame 0, the control cycle does not return the zero command: the call
    of [update_controls] raises [UnboundLocalError].  The command fields
    keep the zeros of the constructor. *)
Theorem warmup_cycle_raises_on_frame_zero :
  exists c', update_controls warmup_example = (Raise UnboundLocalError, c')
             /\ get_commands c' = (0, 0, 0).
Proof.
  destruct (update_controls_warmup warmup_example) as (w & _ & ->);
    [reflexivity | discriminate |].
  eexists. split; reflexivity.
Qed.

(** C2.  A call of [update_controls] while [_start_control_loop] is false,
    on a path that is not empty, raises [UnboundLocalError]; none of
    [_set_throttle], [_set_steer], [_set_brake] is written, and
    [vars.v_previous] holds the current speed when the exception leaves. *)
Theorem update_controls_warmup_unbound_local (c : Controller2D) :
  _start_control_loop c = false ->
  _waypoints c <> [] ->
  exists c',
    update_controls c = (Raise UnboundLocalError, c')
    /\ _set_throttle c' = _set_throttle c
    /\ _set_steer c' = _set_steer c
    /\ _set_brake c' = _set_brake c
    /\ vars c' !! "v_previous" = Some (_current_speed c).
Proof.
  intros Hs Hne.
  destruct (update_controls_warmup c Hs Hne) as (w & _ & ->).
  eexists. split; [reflexivity|].
  cbn [set_vars set_desired_speed _set_throttle _set_steer _set_brake vars].
  by rewrite lookup_insert_eq.
Qed.

Lemma update_controls_warmup_unbound_local_witness :
  _start_control_loop warmup_example = false
  /\ _waypoints warmup_example <> []
  /\ exists c',
       update_controls warmup_example = (Raise UnboundLocalError, c')
       /\ _set_throttle c' = _set_throttle warmup_example
       /\ _set_steer c' = _set_steer warmup_example
       /\ _set_brake c' = _set_brake warmup_example
       /\ vars c' !! "v_previous" = Some (_current_speed warmup_example).
Proof.
  split; [reflexivity|]. split; [discriminate|].
  apply (update_controls_warmup_unbound_local warmup_example);
    [reflexivity | discriminate].
Defined.

(** ** Bounds of the reported command *)

(** C3.  [set_throttle] and [set_brake] store a value of [[0, 1]];
    [set_steer] converts by [180 / (70 * PI)] and stores a value of
    [[-1, 1]]; and whatever calls are made on a controller, the command it
    reports is within these bounds. *)
Theorem reported_command_in_bounds :
  (forall x c, 0 <= _set_throttle (set_throttle x c) <= 1)
  /\ (forall x c, 0 <= _set_brake (set_brake x c) <= 1)
  /\ (forall x c,
        _set_steer (set_steer x c)
        = Rmax (Rmin (180 / (70 * PI) * x) 1) (-1)
        /\ -1 <= _set_steer (set_steer x c) <= 1)
  /\ (forall waypoints ks,
        in_bounds (get_commands (run ks (__init__ waypoints)))).
Proof.
  split; [intros; cbn; apply clamp_bounds; lra|].
  split; [intros; cbn; apply clamp_bounds; lra|].
  split.
  - intros x c. cbn. split; [|apply clamp_bounds; lra].
    unfold _conv_rad_to_steer.
    replace (180 / 70 / PI) with (180 / (70 * PI))
      by (field; apply PI_neq0).
    reflexivity.
  - intros waypoints ks. unfold run.
    assert (in_bounds (get_commands (__init__ waypoints))) as H
      by (cbn; lra).
    revert H. generalize (__init__ waypoints).
    induction ks as [|k ks IH]; intros c H; [exact H|].
    cbn [fold_left]. apply IH, step_in_bounds, H.
Qed.

(** ** The warm-up latch *)

Lemma run_latch (ks : list call) : forall c,
  _start_control_loop c = true -> _start_control_loop (run ks c) = true.
Proof.
  unfold run. induction ks as [|k ks IH]; intros c H; [exact H|].
  cbn [fold_left]. apply IH, step_latch, H.
Qed.

(** C7.  The constructor starts with [_start_control_loop] false;
    [update_values] leaves it as it is on frame 0 and sets it on a
    non-zero frame; after that no sequence of calls clears it, frames of
    index 0 included, and a cycle on a non-empty path runs the active
    branch and returns. *)
Theorem start_control_loop_latch (c : Controller2D)
    (x y yaw speed timestamp : R) (frame : Z) (ks : list call) :
  frame <> 0%Z ->
  (forall waypoints, _start_control_loop (__init__ waypoints) = false)
  /\ _start_control_loop (update_values x y yaw speed timestamp 0 c)
     = _start_control_loop c
  /\ _start_control_loop (update_values x y yaw speed timestamp frame c)
     = true
  /\ let c' := run ks (update_values x y yaw speed timestamp frame c) in
     _start_control_loop c' = true
     /\ (_waypoints c' <> [] ->
         exists ds steer,
           update_controls c' = (Ok tt, active_state c' ds steer)).
Proof.
  intros Hf.
  assert (_start_control_loop (update_values x y yaw speed timestamp frame c)
          = true) as H1.
  { cbn. destruct (Z.eqb_spec frame 0); [contradiction | reflexivity]. }
  split; [reflexivity|]. split; [reflexivity|]. split; [exact H1|].
  cbv zeta. pose proof (run_latch ks _ H1) as H2. split; [exact H2|].
  intros Hne.
  destruct (update_controls_active _ H2 Hne) as (w & s & _ & _ & ->).
  eauto.
Qed.

Lemma start_control_loop_latch_witness :
  1%Z <> 0%Z
  /\ _start_control_loop
       (run [Call_update_values 0 0 0 0 0 0; Call_update_controls]
          (update_values 0 0 0 0 0 1 (__init__ spec_path))) = true.
Proof.
  split; [discriminate|].
  exact (proj1 (proj2 (proj2 (proj2
    (start_control_loop_latch (__init__ spec_path) 0 0 0 0 0 1
       [Call_update_values 0 0 0 0 0 0; Call_update_controls]
       ltac:(discriminate)))))).
Defined.

(** ** The look-ahead index *)

(** C9.  The look-ahead index is [idx + 17] when [idx < len - 18] and
    [len - 1] otherwise; for a nearest index within the path it is within
    the path and not behind the nearest index. *)
Theorem look_ahead_index (idx len : Z) :
  ((idx < len - 18)%Z -> look_ahead idx len = (idx + 17)%Z)
  /\ (~ (idx < len - 18)%Z -> look_ahead idx len = (len - 1)%Z)
  /\ ((0 <= idx < len)%Z -> (idx <= look_ahead idx len < len)%Z).
Proof.
  unfold look_ahead.
  destruct (Z.ltb_spec idx (len - 18)); repeat split; intros; lia.
Qed.

Lemma look_ahead_index_witness :
  look_ahead 0 30 = 17%Z /\ look_ahead 0 3 = 2%Z /\ look_ahead 12 30 = 29%Z.
Proof.
  split; [apply (proj1 (look_ahead_index 0 30)); lia|].
  split.
  - apply (proj1 (proj2 (look_ahead_index 0 3))); lia.
  - apply (proj1 (proj2 (look_ahead_index 12 30))); lia.
Defined.

(** ** The longitudinal law *)

Lemma saturate_clamp (u : R) : Rmax (Rmin u 1) 0 = Spec.saturate u.
Proof.
  unfold Spec.saturate, Rmax, Rmin.
  repeat destruct (Rle_dec _ _); repeat destruct (Rlt_dec _ _); lra.
Qed.

Lemma active_state_outputs (c : Controller2D) (ds steer : R) :
  let c' := active_state c ds steer in
  (_set_throttle c', _set_brake c',
   {| Spec.integral := default 0 (vars c' !! "e_total");
      Spec.previous_error := default 0 (vars c' !! "e_previous") |})
  = Spec.speed_controller ds (_current_speed c) (speed_state c).
Proof.
  cbv zeta. unfold active_state. cbv zeta.
  cbn [_set_throttle _set_brake vars].
  rewrite !saturate_clamp.
  rewrite (lookup_insert_ne _ "steer_output_p" "e_total") by done.
  rewrite (lookup_insert_ne _ "v_previous" "e_total") by done.
  rewrite (lookup_insert_ne _ "e_previous" "e_total") by done.
  rewrite lookup_insert_eq.
  rewrite (lookup_insert_ne _ "steer_output_p" "e_previous") by done.
  rewrite (lookup_insert_ne _ "v_previous" "e_previous") by done.
  rewrite lookup_insert_eq.
  unfold Spec.speed_controller, Spec.target_acceleration, outputs_of,
    target_acc_of, speed_state, K_p, K_i, K_d, Spec.Kp, Spec.Ki, Spec.Kd.
  cbn [Spec.integral Spec.previous_error default].
  destruct (Rlt_dec _ 0); reflexivity.
Qed.

(** C4.  An active cycle on a non-empty path returns, and its longitudinal
    part is the PID law of the specification: from the desired speed of
    the cycle, the current speed and the persisted integral and previous
    error it stores the saturated throttle and brake of the output
    mapping, the integral increased by the error, and the error as the
    previous error. *)
Theorem longitudinal_controller_is_pid (c : Controller2D) :
  _start_control_loop c = true ->
  _waypoints c <> [] ->
  exists c',
    update_controls c = (Ok tt, c')
    /\ (exists w,
          nth_error (_waypoints c) (Z.to_nat (desired_speed_index c)) = Some w
          /\ _desired_speed c' = wp_v w)
    /\ (_set_throttle c', _set_brake c', speed_state c')
       = Spec.speed_controller (_desired_speed c') (_current_speed c)
           (speed_state c).
Proof.
  intros Hs Hne.
  destruct (update_controls_active c Hs Hne) as (w & steer & Hw & _ & ->).
  eexists. split; [reflexivity|]. split; [by exists w|].
  apply (active_state_outputs c (wp_v w) steer).
Qed.

Lemma spec_path_speed (i : nat) (w : waypoint) :
  nth_error spec_path i = Some w -> wp_v w = 5.
Proof.
  intros H. apply nth_error_In in H. cbn in H.
  destruct H as [<- | [<- | [<- | []]]]; reflexivity.
Qed.

Lemma speed_controller_standstill :
  Spec.speed_controller 5 0 {| Spec.integral := 0; Spec.previous_error := 0 |}
  = (1, 0, {| Spec.integral := 5; Spec.previous_error := 5 |}).
Proof.
  unfold Spec.speed_controller, Spec.target_acceleration, Spec.saturate,
    Spec.Kp, Spec.Ki, Spec.Kd.
  cbn [Spec.integral Spec.previous_error].
  repeat destruct (Rlt_dec _ _); try lra.
  repeat f_equal; lra.
Qed.

Lemma longitudinal_controller_is_pid_witness :
  _start_control_loop standstill_example = true
  /\ _waypoints standstill_example <> []
  /\ exists c',
       update_controls standstill_example = (Ok tt, c')
       /\ _desired_speed c' = 5
       /\ _set_throttle c' = 1
       /\ _set_brake c' = 0
       /\ speed_state c'
          = {| Spec.integral := 5; Spec.previous_error := 5 |}.
Proof.
  split; [reflexivity|]. split; [discriminate|].
  destruct (longitudinal_controller_is_pid standstill_example)
    as (c' & Hu & (w & Hw & Hd) & Hpid); [reflexivity | discriminate |].
  exists c'. split; [exact Hu|].
  apply spec_path_speed in Hw. rewrite Hw in Hd. rewrite Hd in Hpid.
  change (speed_state standstill_example)
    with {| Spec.integral := 0; Spec.previous_error := 0 |} in Hpid.
  change (_current_speed standstill_example) with 0 in Hpid.
  rewrite speed_controller_standstill in Hpid.
  injection Hpid as Ht Hb Hi He.
  repeat split; try assumption.
  unfold speed_state. rewrite Hi, He. reflexivity.
Defined.

(** ** Throttle and brake *)

Lemma speed_controller_cruise :
  Spec.speed_controller 5 5 {| Spec.integral := 0; Spec.previous_error := 0 |}
  = (0, 0, {| Spec.integral := 0; Spec.previous_error := 0 |}).
Proof.
  unfold Spec.speed_controller, Spec.target_acceleration, Spec.saturate,
    Spec.Kp, Spec.Ki, Spec.Kd.
  cbn [Spec.integral Spec.previous_error].
  repeat destruct (Rlt_dec _ _); try lra.
  repeat f_equal; lra.
Qed.

(** C10 as stated fails: in the cycle of [cruise_example] the error, the
    integral and the derivative are 0, so the target acceleration is 0 and
    the command has throttle 0 and brake 0. *)
Lemma throttle_and_brake_both_zero :
  exists c',
    update_controls cruise_example = (Ok tt, c')
    /\ ~ exactly_one_nonzero (_set_throttle c') (_set_brake c').
Proof.
  destruct (update_controls_active cruise_example)
    as (w & steer & Hw & _ & Hu); [reflexivity | discriminate |].
  pose proof (active_state_outputs cruise_example (wp_v w) steer) as Ho.
  cbv zeta in Ho.
  remember (active_state cruise_example (wp_v w) steer) as c' eqn:Ec.
  clear Ec. exists c'. split; [exact Hu|].
  rewrite (spec_path_speed _ _ Hw) in Ho.
  change (speed_state cruise_example)
    with {| Spec.integral := 0; Spec.previous_error := 0 |} in Ho.
  change (_current_speed cruise_example) with 5 in Ho.
  rewrite speed_controller_cruise in Ho.
  injection Ho as Ht Hb _ _. rewrite Ht, Hb.
  intros [[H _] | [_ H]]; apply H; reflexivity.
Qed.

Lemma speed_controller_sign (ds v : R) (st : Spec.SpeedState) :
  let target := Spec.target_acceleration ds v st in
  let '(throttle, brake, _) := Spec.speed_controller ds v st in
  (throttle = 0 \/ brake = 0)
  /\ (0 < target -> 0 < throttle /\ brake = 0)
  /\ (target < 0 -> throttle = 0 /\ 0 < brake)
  /\ (target = 0 -> throttle = 0 /\ brake = 0).
Proof.
  cbv zeta. unfold Spec.speed_controller.
  generalize (Spec.target_acceleration ds v st). intros t.
  unfold Spec.saturate.
  destruct (Rlt_dec t 0) as [Hneg | Hpos].
  - pose proof (Rabs_left t Hneg) as Ha. rewrite Ha.
    repeat destruct (Rlt_dec _ _); repeat split; intros; try lra; auto.
  - repeat destruct (Rlt_dec _ _); repeat split; intros; try lra; auto.
Qed.

(** C10, amended.  In an active cycle on a non-empty path throttle and
    brake are never both non-zero: throttle is positive and brake 0 when
    the target acceleration is positive, brake is positive and throttle 0
    when it is negative, and both are 0 when it is 0. *)
Theorem throttle_brake_never_both_nonzero (c : Controller2D) :
  _start_control_loop c = true ->
  _waypoints c <> [] ->
  exists c',
    update_controls c = (Ok tt, c')
    /\ let target :=
         Spec.target_acceleration (_desired_speed c') (_current_speed c)
           (speed_state c) in
       (_set_throttle c' = 0 \/ _set_brake c' = 0)
       /\ (0 < target -> 0 < _set_throttle c' /\ _set_brake c' = 0)
       /\ (target < 0 -> _set_throttle c' = 0 /\ 0 < _set_brake c')
       /\ (target = 0 -> _set_throttle c' = 0 /\ _set_brake c' = 0).
Proof.
  intros Hs Hne.
  destruct (update_controls_active c Hs Hne) as (w & steer & _ & _ & ->).
  eexists. split; [reflexivity|].
  pose proof (active_state_outputs c (wp_v w) steer) as Ho.
  pose proof (speed_controller_sign (wp_v w) (_current_speed c)
                (speed_state c)) as Hsign.
  cbv zeta in Ho, Hsign. rewrite <- Ho in Hsign. exact Hsign.
Qed.

Lemma throttle_brake_never_both_nonzero_witness :
  _start_control_loop standstill_example = true
  /\ _waypoints standstill_example <> []
  /\ exists c',
       update_controls standstill_example = (Ok tt, c')
       /\ (_set_throttle c' = 0 \/ _set_brake c' = 0).
Proof.
  split; [reflexivity|]. split; [discriminate|].
  destruct (throttle_brake_never_both_nonzero standstill_example)
    as (c' & Hu & H & _); [reflexivity | discriminate |].
  exists c'. split; [exact Hu | exact H].
Defined.

(** ** Angle normalisation *)

Lemma PI_gt_3 : 3 < PI.
Proof. pose proof PI2_3_2. lra. Qed.

(** C8 as stated fails: one correction by [2 * PI] does not bring every
    angle into [(-PI, PI]].  A heading error of 100 rad stays above [PI],
    the heading error [-PI] is kept as it is, and the same holds for
    [steer_expect]. *)
Lemma normalization_leaves_range :
  ~ (- PI < normalize_theta_fai 100 <= PI)
  /\ ~ (- PI < normalize_theta_fai (- PI) <= PI)
  /\ normalize_steer_expect (Finite 100) = Finite (100 - 2 * PI)
  /\ ~ (- PI < 100 - 2 * PI <= PI).
Proof.
  pose proof PI_4. pose proof PI_gt_3.
  unfold normalize_theta_fai, normalize_steer_expect, np_gt, np_lt, np_sub,
    np_add.
  repeat destruct (Rlt_dec _ _); try lra.
  repeat split; try reflexivity; lra.
Qed.

Lemma normalize_steer_expect_finite (theta : R) :
  normalize_steer_expect (Finite theta) = Finite (normalize_theta_fai theta).
Proof.
  pose proof PI_RGT_0.
  unfold normalize_theta_fai, normalize_steer_expect, np_gt, np_lt, np_sub,
    np_add.
  destruct (Rlt_dec PI theta).
  - destruct (Rlt_dec (theta - 2 * PI) (- PI)); [lra | reflexivity].
  - destruct (Rlt_dec theta (- PI)); reflexivity.
Qed.

(** C8, amended.  The wrap of the heading error yields a value of
    [[-PI, PI]] exactly for the angles of [[-3 PI, 3 PI]], and a value of
    [(-PI, PI]] exactly for those of [(-3 PI, 3 PI]] other than [-PI]; on a
    finite [steer_expect] the two tests of lines 247-250 compute the same
    wrap. *)
Theorem normalization_range (theta : R) :
  (- PI <= normalize_theta_fai theta <= PI
   <-> - (3 * PI) <= theta <= 3 * PI)
  /\ (- PI < normalize_theta_fai theta <= PI
      <-> - (3 * PI) < theta <= 3 * PI /\ theta <> - PI)
  /\ normalize_steer_expect (Finite theta)
     = Finite (normalize_theta_fai theta).
Proof.
  pose proof PI_RGT_0.
  split; [|split; [|apply normalize_steer_expect_finite]].
  - unfold normalize_theta_fai.
    repeat destruct (Rlt_dec _ _); split; intros; lra.
  - unfold normalize_theta_fai.
    repeat destruct (Rlt_dec _ _); split.
    all: try (intros ?; split; [lra | intros ?; lra]).
    all: intros [? Hne]; lra.
Qed.

Lemma normalization_range_witness :
  - PI <= normalize_theta_fai 5 <= PI.
Proof.
  pose proof PI_4. pose proof PI_gt_3.
  apply (proj1 (normalization_range 5)). lra.
Defined.

(** ** The nearest-waypoint searches *)

Lemma norm2_distance (x y : R) (w : waypoint) :
  norm2 (wp_x w - x) (wp_y w - y) = distance x y w.
Proof. unfold norm2, distance. f_equal. ring. Qed.

Lemma least_at_head (x y : R) (w : waypoint) (rest : list waypoint) :
  (forall w', In w' rest -> distance x y w <= distance x y w') ->
  least_at x y (w :: rest) 0 w.
Proof.
  intros Hall. split; [reflexivity|]. intros [|j] wj Hj; cbn in Hj.
  - injection Hj as <-. split; [lra | lia].
  - apply nth_error_In in Hj. split; [auto | lia].
Qed.

Lemma least_at_tail (x y : R) (w w' : waypoint) (rest : list waypoint)
    (k : nat) :
  least_at x y rest k w' ->
  distance x y w' < distance x y w ->
  least_at x y (w :: rest) (S k) w'.
Proof.
  intros [Hk Hmin] Hlt. split; [exact Hk|]. intros [|j] wj Hj; cbn in Hj.
  - injection Hj as <-. split; [lra | intros _; exact Hlt].
  - destruct (Hmin j wj Hj) as [H1 H2].
    split; [exact H1 | intros ?; apply H2; lia].
Qed.

Lemma least_at_unique (x y : R) (wps : list waypoint) (k1 k2 : nat)
    (w1 w2 : waypoint) :
  least_at x y wps k1 w1 -> least_at x y wps k2 w2 -> k1 = k2.
Proof.
  intros [H1 Hm1] [H2 Hm2].
  destruct (Hm1 _ _ H2) as [H12 H12'], (Hm2 _ _ H1) as [H21 H21'].
  destruct (Nat.lt_trichotomy k1 k2) as [H | [H | H]]; [|exact H|].
  - specialize (H21' H). lra.
  - specialize (H12' H). lra.
Qed.

Lemma first_nearest_unique (x y : R) (wps : list waypoint) (i j : Z) :
  first_nearest x y wps i -> first_nearest x y wps j -> i = j.
Proof.
  intros [Hi [wi Hli]] [Hj [wj Hlj]].
  pose proof (least_at_unique _ _ _ _ _ _ _ Hli Hlj). lia.
Qed.

(** What the loop of lines 203-208 leaves: either nothing was nearer than
    the initial [dist] and the initial pair is kept, or the pair is the
    first waypoint of least distance. *)
Lemma nearest_scan_spec (x y : R) (wps : list waypoint) :
  forall (i idx : Z) (dist : R),
    (nearest_scan x y wps i idx dist = (idx, dist)
     /\ forall w, In w wps -> dist <= distance x y w)
    \/ exists k w,
         nearest_scan x y wps i idx dist
           = ((i + Z.of_nat k)%Z, distance x y w)
         /\ distance x y w < dist
         /\ least_at x y wps k w.
Proof.
  induction wps as [|w rest IH]; intros i idx dist.
  - left. split; [reflexivity | intros w []].
  - cbn [nearest_scan]. fold (distance x y w).
    destruct (Rlt_dec (distance x y w) dist) as [Hlt | Hge].
    + right.
      destruct (IH (i + 1)%Z i (distance x y w))
        as [[-> Hall] | (k & w' & -> & Hd & Hleast)].
      * exists 0%nat, w. split; [f_equal; lia|]. split; [exact Hlt|].
        apply least_at_head, Hall.
      * exists (S k), w'. split; [f_equal; lia|]. split; [lra|].
        apply least_at_tail; assumption.
    + destruct (IH (i + 1)%Z idx dist)
        as [[-> Hall] | (k & w' & -> & Hd & Hleast)].
      * left. split; [reflexivity|]. intros w' [<- | Hin]; [lra | auto].
      * right. exists (S k), w'. split; [f_equal; lia|].
        split; [exact Hd|]. apply least_at_tail; [assumption | lra].
Qed.

(** Once [min_dist] is finite, the loop of [update_desired_speed] is the
    loop of the lateral controller. *)
Lemma desired_speed_scan_finite (x y : R) (wps : list waypoint) :
  forall (i min_idx : Z) (min_dist : R),
    desired_speed_scan x y wps i min_idx (Finite min_dist)
    = (fst (nearest_scan x y wps i min_idx min_dist),
       Finite (snd (nearest_scan x y wps i min_idx min_dist))).
Proof.
  induction wps as [|w rest IH]; intros i min_idx min_dist; [reflexivity|].
  cbn [desired_speed_scan nearest_scan np_lt].
  rewrite norm2_distance. fold (distance x y w).
  destruct (Rlt_dec (distance x y w) min_dist); apply IH.
Qed.

(** The search of [update_desired_speed] returns the smallest index of
    least distance on every non-empty path. *)
Lemma desired_speed_index_first_nearest (c : Controller2D) :
  _waypoints c <> [] ->
  first_nearest (_current_x c) (_current_y c) (_waypoints c)
    (desired_speed_index c).
Proof.
  unfold desired_speed_index, first_nearest.
  destruct (_waypoints c) as [|w rest]; [done|]. intros _.
  cbn [desired_speed_scan np_lt]. rewrite norm2_distance.
  rewrite desired_speed_scan_finite. cbn [fst].
  destruct (nearest_scan_spec (_current_x c) (_current_y c) rest (0 + 1) 0
              (distance (_current_x c) (_current_y c) w))
    as [[-> Hall] | (k & w' & -> & Hd & Hleast)]; cbn [fst].
  - split; [lia|]. exists w. apply least_at_head, Hall.
  - split; [lia|]. exists w'.
    replace (Z.to_nat (0 + 1 + Z.of_nat k)) with (S k) by lia.
    apply least_at_tail; assumption.
Qed.

(** The search of the lateral controller does so when some waypoint is
    nearer than 10000000, and otherwise keeps the last index. *)
Lemma nearest_index_first_nearest (c : Controller2D) :
  (exists w, In w (_waypoints c)
             /\ distance (_current_x c) (_current_y c) w < 10000000) ->
  first_nearest (_current_x c) (_current_y c) (_waypoints c)
    (nearest_index c).
Proof.
  intros (w0 & Hin & Hnear). unfold nearest_index, first_nearest.
  destruct (nearest_scan_spec (_current_x c) (_current_y c) (_waypoints c) 0
              (Z.of_nat (length (_waypoints c)) - 1) 10000000)
    as [[_ Hall] | (k & w' & -> & Hd & Hleast)].
  - specialize (Hall w0 Hin). lra.
  - cbn [fst]. split; [lia|]. exists w'.
    replace (Z.to_nat (0 + Z.of_nat k)) with k by lia. exact Hleast.
Qed.

Lemma nearest_index_far (c : Controller2D) :
  (forall w, In w (_waypoints c) ->
             10000000 <= distance (_current_x c) (_current_y c) w) ->
  nearest_index c = (Z.of_nat (length (_waypoints c)) - 1)%Z.
Proof.
  intros Hfar. unfold nearest_index.
  destruct (nearest_scan_spec (_current_x c) (_current_y c) (_waypoints c) 0
              (Z.of_nat (length (_waypoints c)) - 1) 10000000)
    as [[-> _] | (k & w' & _ & Hd & [Hk _])]; [reflexivity|].
  apply nth_error_In in Hk. specialize (Hfar w' Hk). lra.
Qed.

Lemma distance_on_axis (a v : R) : 0 <= a -> distance 0 0 (a, 0, v) = a.
Proof.
  intros Ha. unfold distance, wp_x, wp_y. cbn [fst snd].
  replace ((a - 0) ^ 2 + (0 - 0) ^ 2) with (a * a) by ring.
  apply sqrt_square, Ha.
Qed.

(** On a path along the positive x axis, in increasing order, the first
    waypoint is the nearest one to the origin. *)
Lemma first_nearest_on_axis (a v : R) (rest : list waypoint) :
  0 <= a ->
  (forall w, In w rest -> exists b u, w = (b, 0, u) /\ a <= b) ->
  first_nearest 0 0 ((a, 0, v) :: rest) 0.
Proof.
  intros Ha Hrest. split; [lia|]. exists (a, 0, v).
  apply least_at_head. intros w Hw.
  destruct (Hrest w Hw) as (b & u & -> & Hb).
  rewrite !distance_on_axis; lra.
Qed.

Lemma far_path_first_nearest : first_nearest 0 0 far_path 0.
Proof.
  apply first_nearest_on_axis; [lra|].
  intros w [<- | []]. exists 30000000, 5. split; [reflexivity | lra].
Qed.

(** C5, at the failing input.  On [far_example] the search of the lateral
    controller returns index 1, the last one, although waypoint 0 is the
    only waypoint of least distance; the search of [update_desired_speed]
    returns index 0 there. *)
Theorem lateral_search_misses_nearest :
  nearest_index far_example = 1%Z
  /\ desired_speed_index far_example = 0%Z
  /\ first_nearest 0 0 far_path 0
  /\ ~ first_nearest 0 0 far_path 1.
Proof.
  split; [|split; [|split]].
  - rewrite nearest_index_far; [reflexivity|].
    intros w [<- | [<- | []]]; cbn [far_example update_values _current_x
      _current_y]; rewrite distance_on_axis; lra.
  - apply (first_nearest_unique 0 0 far_path).
    + apply (desired_speed_index_first_nearest far_example). discriminate.
    + exact far_path_first_nearest.
  - exact far_path_first_nearest.
  - intros H.
    pose proof (first_nearest_unique _ _ _ _ _ H far_path_first_nearest).
    discriminate.
Qed.

(** ** The division by the speed *)

Lemma lateral_controller_steer (x y yaw v : R) (c : Controller2D)
    (wx wy : waypoint) :
  py_getitem (_waypoints c) (nearest_index c) = Some wx ->
  py_getitem (_waypoints c)
    (look_ahead (nearest_index c) (Z.of_nat (length (_waypoints c))))
  = Some wy ->
  lateral_controller x y yaw v c
  = (Ok (steer_from wx wy (_current_x c) (_current_y c) yaw v), c).
Proof.
  intros Hx Hy.
  assert (exists w0, py_getitem (_waypoints c) 0 = Some w0) as [w0 H0].
  { destruct (_waypoints c) as [|w0 ws]; [|by exists w0].
    unfold py_getitem in Hx. rewrite !nth_error_nil in Hx.
    repeat match type of Hx with
           | context [if ?b then _ else _] => destruct b
           end; discriminate. }
  unfold lateral_controller, getitem. run_method.
  rewrite Hx, Hy, H0. reflexivity.
Qed.

Lemma yaw_diff_crosstrack_moving (crosstrack_error v : R) :
  v <> 0 ->
  yaw_diff_crosstrack crosstrack_error v
  = Finite (atan (5 * crosstrack_error / v)).
Proof.
  intros Hv. unfold yaw_diff_crosstrack, np_div.
  destruct (Req_dec_T v 0); [contradiction | reflexivity].
Qed.

Lemma yaw_diff_crosstrack_zero_speed (crosstrack_error : R) :
  yaw_diff_crosstrack crosstrack_error 0
  = if Rlt_dec 0 crosstrack_error then Finite (PI / 2)
    else if Rlt_dec crosstrack_error 0 then Finite (- (PI / 2))
    else NaN.
Proof.
  unfold yaw_diff_crosstrack, np_div.
  destruct (Req_dec_T 0 0) as [_ | H]; [|contradiction].
  repeat destruct (Rlt_dec _ _); try lra; reflexivity.
Qed.

Lemma steer_expect_nan (theta_fai : R) :
  py_max_min (-1.22) 1.22 (normalize_steer_expect (np_add NaN theta_fai))
  = 1.22.
Proof. cbn. destruct (Rlt_dec (-1.22) 1.22); [reflexivity | lra]. Qed.

(** With speed 0 and no lateral offset the quotient is [0 / 0]: whatever
    the heading error, the steering angle is 1.22 rad. *)
Lemma steer_from_standstill_on_path (wx wy : waypoint) (x y yaw : R) :
  (x - wp_x wx)
    * sin (np_arctan2 (wp_y wy - wp_y wx) (wp_x wy - wp_x wx))
  + (y - wp_y wx)
    * cos (np_arctan2 (wp_y wy - wp_y wx) (wp_x wy - wp_x wx)) = 0 ->
  steer_from wx wy x y yaw 0 = 1.22.
Proof.
  intros Hl. unfold steer_from. cbv zeta. rewrite Hl, Rabs_R0.
  rewrite yaw_diff_crosstrack_zero_speed.
  destruct (Rlt_dec 0 (normalize_theta_fai _));
    repeat destruct (Rlt_dec _ _); try lra; apply steer_expect_nan.
Qed.

Lemma nearest_index_at_start (c : Controller2D) :
  _waypoints c = spec_path -> _current_x c = 0 -> _current_y c = 0 ->
  nearest_index c = 0%Z.
Proof.
  intros Hw Hx Hy.
  apply (first_nearest_unique 0 0 spec_path).
  - rewrite <- Hw, <- Hx at 1. rewrite <- Hy at 1.
    apply (nearest_index_first_nearest c).
    exists (0, 0, 5). split; [rewrite Hw; by left|].
    rewrite Hx, Hy, distance_on_axis; lra.
  - apply first_nearest_on_axis; [lra|].
    intros w [<- | [<- | []]]; do 2 eexists; (split; [reflexivity | lra]).
Qed.

Lemma normalize_theta_fai_0 : normalize_theta_fai 0 = 0.
Proof.
  pose proof PI_RGT_0. unfold normalize_theta_fai.
  repeat destruct (Rlt_dec _ _); lra.
Qed.

(** On the path and aligned with it at 5 m/s, the steering angle is 0. *)
Lemma steer_from_cruise : steer_from (0, 0, 5) (20, 0, 5) 0 0 0 5 = 0.
Proof.
  unfold steer_from, wp_x, wp_y. cbn [fst snd].
  assert (np_arctan2 (0 - 0) (20 - 0) = 0) as ->.
  { unfold np_arctan2. destruct (Rlt_dec 0 (20 - 0)); [|lra].
    replace ((0 - 0) / (20 - 0)) with 0 by (unfold Rdiv; ring).
    apply atan_0. }
  cbv zeta. rewrite sin_0, cos_0.
  replace (0 - 0) with 0 by ring. rewrite normalize_theta_fai_0.
  destruct (Rlt_dec 0 0); [lra|].
  replace (0 * 0 + 0 * 1) with 0 by ring. rewrite Rabs_R0.
  rewrite yaw_diff_crosstrack_moving by lra.
  replace (5 * - 0 / 5) with 0 by field. rewrite atan_0.
  cbn [np_add]. rewrite normalize_steer_expect_finite.
  replace (0 + 0) with 0 by ring. rewrite normalize_theta_fai_0.
  unfold py_max_min. repeat destruct (Rlt_dec _ _); lra.
Qed.

Lemma conv_rad_to_steer_122 :
  3 / 4 < Rmax (Rmin (_conv_rad_to_steer * 1.22) 1) (-1) <= 1.
Proof.
  pose proof PI_4. pose proof PI_gt_3. unfold _conv_rad_to_steer.
  assert (3 / 4 < 180 / 70 / PI * 1.22).
  { apply Rmult_lt_reg_r with PI; [lra|]. field_simplify; lra. }
  unfold Rmax, Rmin.
  repeat destruct (Rle_dec _ _); lra.
Qed.

(** C6 as stated fails: the source has no guard for a zero speed.  In the
    cycle of [standstill_example] the vehicle stands on the path, aligned
    with it, at speed 0; the call returns without raising, and the steer
    command is the clamp of the NaN of [0 / 0], 1.22 rad, more than three
    quarters of full lock.  In the same pose at 5 m/s, the cycle of
    [cruise_example], the steer command is 0. *)
Lemma zero_speed_neither_fails_nor_falls_back :
  _current_speed standstill_example = 0
  /\ (exists c',
        update_controls standstill_example = (Ok tt, c')
        /\ _set_steer c' = Rmax (Rmin (_conv_rad_to_steer * 1.22) 1) (-1)
        /\ 3 / 4 < _set_steer c')
  /\ (exists c',
        update_controls cruise_example = (Ok tt, c') /\ _set_steer c' = 0).
Proof.
  split; [reflexivity|]. split.
  - destruct (update_controls_active standstill_example)
      as (w & steer & _ & Hl & ->); [reflexivity | discriminate |].
    rewrite (lateral_controller_steer _ _ _ _ _ (0, 0, 5) (20, 0, 5)) in Hl.
    + injection Hl as <-. eexists. split; [reflexivity|].
      cbn [active_state _set_steer].
      rewrite steer_from_standstill_on_path.
      * split; [reflexivity | apply conv_rad_to_steer_122].
      * cbn [standstill_example update_values _current_x _current_y wp_x
             wp_y fst snd]. ring.
    + rewrite nearest_index_at_start; reflexivity.
    + rewrite nearest_index_at_start; reflexivity.
  - destruct (update_controls_active cruise_example)
      as (w & steer & _ & Hl & ->); [reflexivity | discriminate |].
    rewrite (lateral_controller_steer _ _ _ _ _ (0, 0, 5) (20, 0, 5)) in Hl.
    + injection Hl as <-. eexists. split; [reflexivity|].
      cbn [active_state _set_steer cruise_example update_values _current_x
           _current_y _current_yaw _current_speed].
      rewrite steer_from_cruise, Rmult_0_r.
      unfold Rmax, Rmin. repeat destruct (Rle_dec _ _); lra.
    + rewrite nearest_index_at_start; reflexivity.
    + rewrite nearest_index_at_start; reflexivity.
Qed.

(** C6, amended.  An active cycle on a non-empty path returns a command
    whatever the speed, zero included, and its steer is the clamp of the
    angle [steer_from] of the nearest and look-ahead waypoints, within
    [[-1, 1]].  In that angle [yaw_diff_crosstrack] is the finite
    [atan (5 * crosstrack_error / v)] when [v] is not 0; when [v] is 0 the
    unguarded quotient is an infinity or NaN, so that it is [PI / 2],
    [- PI / 2] or NaN by the sign of the cross-track error, and a NaN
    [steer_expect] leaves lines 251-252 as 1.22 rad. *)
Theorem division_by_speed_unguarded (c : Controller2D) :
  _start_control_loop c = true ->
  _waypoints c <> [] ->
  let v := _current_speed c in
  (exists wx wy c',
     py_getitem (_waypoints c) (nearest_index c) = Some wx
     /\ py_getitem (_waypoints c)
          (look_ahead (nearest_index c) (Z.of_nat (length (_waypoints c))))
        = Some wy
     /\ update_controls c = (Ok tt, c')
     /\ _set_steer c'
        = Rmax (Rmin (_conv_rad_to_steer
                      * steer_from wx wy (_current_x c) (_current_y c)
                          (_current_yaw c) v) 1) (-1)
     /\ -1 <= _set_steer c' <= 1)
  /\ (forall crosstrack_error,
        (v <> 0 ->
         yaw_diff_crosstrack crosstrack_error v
         = Finite (atan (5 * crosstrack_error / v)))
        /\ (v = 0 ->
            yaw_diff_crosstrack crosstrack_error v
            = if Rlt_dec 0 crosstrack_error then Finite (PI / 2)
              else if Rlt_dec crosstrack_error 0 then Finite (- (PI / 2))
              else NaN))
  /\ (forall theta_fai,
        py_max_min (-1.22) 1.22
          (normalize_steer_expect (np_add NaN theta_fai)) = 1.22).
Proof.
  intros Hs Hne v. split; [|split].
  - pose proof (nearest_index_range c Hne) as Hidx.
    pose proof (look_ahead_range _ _ Hidx) as Hidy.
    destruct (getitem_ok (_waypoints c) (nearest_index c)) as [wx Hx]; [lia|].
    destruct (getitem_ok (_waypoints c)
                (look_ahead (nearest_index c)
                   (Z.of_nat (length (_waypoints c))))) as [wy Hy]; [lia|].
    destruct (update_controls_active c Hs Hne) as (w & steer & _ & Hl & ->).
    rewrite (lateral_controller_steer _ _ _ _ _ wx wy Hx Hy) in Hl.
    injection Hl as <-.
    exists wx, wy. eexists. split; [exact Hx|]. split; [exact Hy|].
    split; [reflexivity|]. cbn [active_state _set_steer].
    split; [reflexivity | apply clamp_bounds; lra].
  - intros crosstrack_error. split.
    + apply yaw_diff_crosstrack_moving.
    + intros ->. apply yaw_diff_crosstrack_zero_speed.
  - apply steer_expect_nan.
Qed.

Lemma division_by_speed_unguarded_witness :
  _start_control_loop cruise_example = true
  /\ _waypoints cruise_example <> []
  /\ yaw_diff_crosstrack 2 (_current_speed cruise_example)
     = Finite (atan (5 * 2 / _current_speed cruise_example)).
Proof.
  split; [reflexivity|]. split; [discriminate|].
  apply (proj1 (proj2 (division_by_speed_unguarded cruise_example
                         eq_refl ltac:(discriminate))) 2).
  cbn. lra.
Defined.

(** * Further properties of the methods *)

(** ** The desired-speed lookup *)

(** X1.  On a non-empty path [update_desired_speed] returns without
    raising; the index it finds is the smallest index of least distance to
    the vehicle, and the only attribute it writes is [_desired_speed],
    which becomes the target speed of the waypoint at that index, by
    either branch of lines 51-54. *)
Theorem update_desired_speed_nearest (c : Controller2D) :
  _waypoints c <> [] ->
  exists w,
    first_nearest (_current_x c) (_current_y c) (_waypoints c)
      (desired_speed_index c)
    /\ nth_error (_waypoints c) (Z.to_nat (desired_speed_index c)) = Some w
    /\ update_desired_speed c = (Ok tt, set_desired_speed (wp_v w) c).
Proof.
  intros Hne. destruct (update_desired_speed_ok c Hne) as (w & Hw & Hu).
  exists w. split; [|split; assumption].
  apply desired_speed_index_first_nearest, Hne.
Qed.

Lemma update_desired_speed_nearest_witness :
  exists w,
    first_nearest 0 0 spec_path (desired_speed_index warmup_example)
    /\ nth_error spec_path (Z.to_nat (desired_speed_index warmup_example))
       = Some w
    /\ update_desired_speed warmup_example
       = (Ok tt, set_desired_speed (wp_v w) warmup_example).
Proof.
  apply (update_desired_speed_nearest warmup_example). discriminate.
Defined.

Lemma update_desired_speed_empty (c : Controller2D) :
  _waypoints c = [] -> update_desired_speed c = (Raise IndexError, c).
Proof.
  intros He. unfold update_desired_speed, desired_speed_index. run_method.
  rewrite He. reflexivity.
Qed.

(** X2.  On an empty path both [update_desired_speed] and
    [update_controls] raise [IndexError], from [self._waypoints[-1]] at
    line 54, and leave the controller object as it was: no persistent
    variable is created and no command is written. *)
Theorem empty_path_raises_index_error (c : Controller2D) :
  _waypoints c = [] ->
  update_desired_speed c = (Raise IndexError, c)
  /\ update_controls c = (Raise IndexError, c).
Proof.
  intros He. split.
  - apply update_desired_speed_empty, He.
  - apply update_controls_empty, He.
Qed.

Lemma empty_path_raises_index_error_witness :
  update_desired_speed (update_values 1 2 0 3 0 1 (__init__ []))
  = (Raise IndexError, update_values 1 2 0 3 0 1 (__init__ []))
  /\ update_controls (update_values 1 2 0 3 0 1 (__init__ []))
     = (Raise IndexError, update_values 1 2 0 3 0 1 (__init__ [])).
Proof.
  apply (empty_path_raises_index_error
           (update_values 1 2 0 3 0 1 (__init__ []))).
  reflexivity.
Defined.

(** ** The search of the lateral controller *)

(** X3.  The index found by the loop of lines 197-208 is always an index of
    a non-empty path.  It is the smallest index of least distance when
    some waypoint is nearer than 10000000, and the last index when no
    waypoint is. *)
Theorem lateral_search_result (c : Controller2D) :
  _waypoints c <> [] ->
  (0 <= nearest_index c < Z.of_nat (length (_waypoints c)))%Z
  /\ ((exists w, In w (_waypoints c)
                 /\ distance (_current_x c) (_current_y c) w < 10000000) ->
      first_nearest (_current_x c) (_current_y c) (_waypoints c)
        (nearest_index c))
  /\ ((forall w, In w (_waypoints c) ->
                 10000000 <= distance (_current_x c) (_current_y c) w) ->
      nearest_index c = (Z.of_nat (length (_waypoints c)) - 1)%Z).
Proof.
  intros Hne. split; [apply nearest_index_range, Hne|]. split.
  - apply nearest_index_first_nearest.
  - apply nearest_index_far.
Qed.

Lemma lateral_search_result_witness :
  first_nearest 0 0 spec_path (nearest_index standstill_example).
Proof.
  apply (proj1 (proj2 (lateral_search_result standstill_example
                         ltac:(discriminate)))).
  exists (0, 0, 5). split; [by left|].
  cbn [standstill_example update_values _current_x _current_y].
  rewrite distance_on_axis; lra.
Defined.

(** ** Cycles that raise *)



(** ** The integral over successive cycles *)

Lemma same_inputs_index (c c' : Controller2D) :
  same_inputs c c' -> desired_speed_index c' = desired_speed_index c.
Proof.
  intros (_ & Hw & Hx & Hy & _). unfold desired_speed_index.
  rewrite Hw, Hx, Hy. reflexivity.
Qed.

Lemma speed_state_active (c : Controller2D) (ds steer : R) :
  speed_state (active_state c ds steer)
  = {| Spec.integral :=
         Spec.integral (speed_state c) + (ds - _current_speed c);
       Spec.previous_error := ds - _current_speed c |}.
Proof.
  pose proof (active_state_outputs c ds steer) as H. cbv zeta in H.
  unfold Spec.speed_controller in H. injection H as _ _ Hi He.
  unfold speed_state at 1. f_equal; [exact Hi | exact He].
Qed.

Lemma repeated_cycles (c : Controller2D) (w : waypoint) :
  _start_control_loop c = true ->
  _waypoints c <> [] ->
  nth_error (_waypoints c) (Z.to_nat (desired_speed_index c)) = Some w ->
  forall (n : nat) (c0 : Controller2D),
    same_inputs c c0 ->
    let cn := run (repeat Call_update_controls n) c0 in
    same_inputs c cn
    /\ Spec.integral (speed_state cn)
       = Spec.integral (speed_state c0)
         + INR n * (wp_v w - _current_speed c)
    /\ ((0 < n)%nat ->
        Spec.previous_error (speed_state cn) = wp_v w - _current_speed c).
Proof.
  intros Hs Hne Hw. induction n as [|n IH]; intros c0 H0; cbv zeta.
  - cbn [repeat run fold_left INR]. split; [exact H0|].
    split; [lra | lia].
  - cbn [repeat]. unfold run. cbn [fold_left step].
    pose proof H0 as (H0s & H0w & H0x & H0y & H0v).
    destruct (update_controls_active c0) as (w0 & steer & Hw0 & _ & Hu);
      [congruence | congruence |].
    rewrite (same_inputs_index _ _ H0), H0w, Hw in Hw0.
    injection Hw0 as <-. rewrite Hu. cbn [snd].
    fold (run (repeat Call_update_controls n)
            (active_state c0 (wp_v w) steer)).
    assert (same_inputs c (active_state c0 (wp_v w) steer)) as H1
      by (repeat split; assumption).
    destruct (IH _ H1) as (Hsame & Hi & Hp). cbv zeta in Hsame, Hi, Hp.
    split; [exact Hsame|]. split.
    + rewrite Hi, speed_state_active. cbn [Spec.integral].
      rewrite H0v, S_INR. lra.
    + intros _. destruct n as [|n].
      * cbn [repeat run fold_left]. rewrite speed_state_active.
        cbn [Spec.previous_error]. rewrite H0v. reflexivity.
      * apply Hp. lia.
Qed.

(** X5.  While the pose and the path stay as they are, every call of
    [update_controls] in the active state adds the same speed error to the
    persisted integral, with no bound: after [n] calls the integral has
    grown by [n] times the error, and from the first call on the persisted
    previous error is that error. *)
Theorem integral_accumulates_per_call (c : Controller2D) (n : nat) :
  _start_control_loop c = true ->
  _waypoints c <> [] ->
  exists w,
    nth_error (_waypoints c) (Z.to_nat (desired_speed_index c)) = Some w
    /\ let cn := run (repeat Call_update_controls n) c in
       Spec.integral (speed_state cn)
       = Spec.integral (speed_state c)
         + INR n * (wp_v w - _current_speed c)
       /\ ((0 < n)%nat ->
           Spec.previous_error (speed_state cn)
           = wp_v w - _current_speed c).
Proof.
  intros Hs Hne. destruct (update_desired_speed_ok c Hne) as (w & Hw & _).
  exists w. split; [exact Hw|].
  apply (repeated_cycles c w Hs Hne Hw n c). repeat split.
Qed.

Lemma integral_accumulates_per_call_witness :
  Spec.integral
    (speed_state (run (repeat Call_update_controls 3) standstill_example))
  = 15.
Proof.
  destruct (integral_accumulates_per_call standstill_example 3)
    as (w & Hw & Hi & _); [reflexivity | discriminate |].
  cbv zeta in Hi. rewrite Hi. rewrite (spec_path_speed _ _ Hw).
  change (Spec.integral (speed_state standstill_example)) with 0.
  change (_current_speed standstill_example) with 0.
  cbn [INR]. lra.
Defined.

(** ** The setters and the reported command *)

(** X6.  The three setters write one field each, and a value within the
    actuator range is stored as it is (for the steer, after the conversion
    from radians): setting throttle, steer and brake and reading the
    command gives back the three values. *)
Theorem setters_round_trip (c : Controller2D) (throttle steer brake : R) :
  0 <= throttle <= 1 ->
  -1 <= _conv_rad_to_steer * steer <= 1 ->
  0 <= brake <= 1 ->
  get_commands (set_brake brake (set_steer steer (set_throttle throttle c)))
  = (throttle, _conv_rad_to_steer * steer, brake).
Proof.
  intros Ht Hs Hb. unfold get_commands.
  cbn [set_brake set_steer set_throttle _set_throttle _set_steer _set_brake].
  unfold Rmax, Rmin.
  repeat destruct (Rle_dec _ _); repeat f_equal; lra.
Qed.

Lemma setters_round_trip_witness :
  get_commands
    (set_brake 0 (set_steer 0 (set_throttle (1 / 2) (__init__ spec_path))))
  = (1 / 2, _conv_rad_to_steer * 0, 0).
Proof.
  apply (setters_round_trip (__init__ spec_path) (1 / 2) 0 0); lra.
Defined.

Lemma PI_gt_314 : 3.14 < PI.
Proof.
  pose proof (PI_2_3_7_ineq 1) as [H _].
  unfold sum_f_R0, tg_alt, PI_2_3_7_tg, Ratan_seq in H. simpl in H.
  lra.
Qed.

Lemma py_max_min_bounds (lo hi : R) (s : npfloat) :
  lo <= hi -> lo <= py_max_min lo hi s <= hi.
Proof.
  intros H. unfold py_max_min.
  destruct s; repeat destruct (Rlt_dec _ _); lra.
Qed.

(** 1.22 rad is less than full lock: the conversion of an angle of
    [[-1.22, 1.22]] is strictly within the actuator range. *)
Lemma conv_rad_to_steer_within (angle : R) :
  -1.22 <= angle <= 1.22 -> -1 < _conv_rad_to_steer * angle < 1.
Proof.
  intros Ha. pose proof PI_gt_314 as Hpi. unfold _conv_rad_to_steer.
  assert (0 < 180 / 70 / PI < 1 / 1.22) as [Hc0 Hc1].
  { split.
    - apply Rdiv_lt_0_compat; lra.
    - apply Rmult_lt_reg_r with PI; [lra|]. field_simplify; lra. }
  split; nra.
Qed.

(** X7.  An active cycle on a non-empty path stores the current speed in
    [vars.v_previous] and the steering angle in [vars.steer_output_p]; the
    angle is within [[-1.22, 1.22]] rad whatever the inputs, and the steer
    command is its conversion, strictly inside [(-1, 1)]: the clamp of
    [set_steer] never acts on an angle of the lateral controller. *)
Theorem active_cycle_steer_angle (c : Controller2D) :
  _start_control_loop c = true ->
  _waypoints c <> [] ->
  exists c' angle,
    update_controls c = (Ok tt, c')
    /\ vars c' !! "v_previous" = Some (_current_speed c)
    /\ vars c' !! "steer_output_p" = Some angle
    /\ -1.22 <= angle <= 1.22
    /\ _set_steer c' = _conv_rad_to_steer * angle
    /\ -1 < _set_steer c' < 1.
Proof.
  intros Hs Hne.
  pose proof (nearest_index_range c Hne) as Hidx.
  pose proof (look_ahead_range _ _ Hidx) as Hidy.
  destruct (getitem_ok (_waypoints c) (nearest_index c)) as [wx Hx]; [lia|].
  destruct (getitem_ok (_waypoints c)
              (look_ahead (nearest_index c)
                 (Z.of_nat (length (_waypoints c))))) as [wy Hy]; [lia|].
  destruct (update_controls_active c Hs Hne) as (w & steer & _ & Hl & ->).
  rewrite (lateral_controller_steer _ _ _ _ _ wx wy Hx Hy) in Hl.
  injection Hl as <-.
  set (angle := steer_from wx wy (_current_x c) (_current_y c)
                  (_current_yaw c) (_current_speed c)).
  assert (-1.22 <= angle <= 1.22) as Ha
    by (apply py_max_min_bounds; lra).
  pose proof (conv_rad_to_steer_within angle Ha) as Hc.
  assert (Rmax (Rmin (_conv_rad_to_steer * angle) 1) (-1)
          = _conv_rad_to_steer * angle) as Hclamp.
  { unfold Rmax, Rmin. repeat destruct (Rle_dec _ _); lra. }
  eexists. exists angle. split; [reflexivity|].
  cbn [active_state vars _set_steer]. rewrite Hclamp.
  split; [|split; [|auto]].
  - rewrite lookup_insert_ne by done. apply lookup_insert_eq.
  - apply lookup_insert_eq.
Qed.

Lemma active_cycle_steer_angle_witness :
  exists c' angle,
    update_controls cruise_example = (Ok tt, c')
    /\ vars c' !! "v_previous" = Some (_current_speed cruise_example)
    /\ vars c' !! "steer_output_p" = Some angle
    /\ -1.22 <= angle <= 1.22
    /\ _set_steer c' = _conv_rad_to_steer * angle
    /\ -1 < _set_steer c' < 1.
Proof.
  apply (active_cycle_steer_angle cruise_example);
    [reflexivity | discriminate].
Defined.

(** ** What the lateral law responds to *)

Lemma steer_from_abs_laterr (wx wy : waypoint) (x1 y1 x2 y2 yaw v : R) :
  Rabs (laterr_of wx wy x1 y1) = Rabs (laterr_of wx wy x2 y2) ->
  steer_from wx wy x1 y1 yaw v = steer_from wx wy x2 y2 yaw v.
Proof.
  unfold steer_from, laterr_of. cbv zeta. intros ->. reflexivity.
Qed.

(** X8.  The lateral controller uses the lateral offset only through its
    absolute value (lines 239-242 give it the sign of the heading error):
    two vehicles with the same nearest and look-ahead waypoints, the same
    yaw and speed, and opposite offsets from the path get the same steering
    angle. *)
Theorem steer_ignores_offset_side (c1 c2 : Controller2D) (yaw v : R)
    (wx wy : waypoint) :
  _waypoints c2 = _waypoints c1 ->
  nearest_index c2 = nearest_index c1 ->
  py_getitem (_waypoints c1) (nearest_index c1) = Some wx ->
  py_getitem (_waypoints c1)
    (look_ahead (nearest_index c1) (Z.of_nat (length (_waypoints c1))))
  = Some wy ->
  laterr_of wx wy (_current_x c2) (_current_y c2)
  = - laterr_of wx wy (_current_x c1) (_current_y c1) ->
  exists steer,
    lateral_controller (_current_x c1) (_current_y c1) yaw v c1
    = (Ok steer, c1)
    /\ lateral_controller (_current_x c2) (_current_y c2) yaw v c2
       = (Ok steer, c2).
Proof.
  intros Hw Hn Hx Hy Hl.
  rewrite (lateral_controller_steer _ _ _ _ c1 wx wy Hx Hy).
  rewrite (lateral_controller_steer _ _ _ _ c2 wx wy)
    by (rewrite Hw, Hn; assumption).
  eexists. split; [reflexivity|]. do 2 f_equal.
  apply steer_from_abs_laterr. rewrite Hl. apply Rabs_Ropp.
Qed.

Lemma distance_from_y_axis (b v : R) :
  distance 0 b (0, 0, v) = Rabs b.
Proof.
  unfold distance, wp_x, wp_y. cbn [fst snd].
  replace ((0 - 0) ^ 2 + (0 - b) ^ 2) with (Rsqr b)
    by (unfold Rsqr; ring).
  apply sqrt_Rsqr_abs.
Qed.

(** Beside the first waypoint of [spec_path], that waypoint is the
    nearest. *)
Lemma nearest_index_beside_start (c : Controller2D) :
  _waypoints c = spec_path -> _current_x c = 0 ->
  Rabs (_current_y c) < 10000000 ->
  nearest_index c = 0%Z.
Proof.
  intros Hw Hx Hy.
  apply (first_nearest_unique 0 (_current_y c) spec_path).
  - rewrite <- Hw, <- Hx. apply (nearest_index_first_nearest c).
    exists (0, 0, 5). split; [rewrite Hw; by left|].
    rewrite Hx, distance_from_y_axis. exact Hy.
  - split; [lia|]. exists (0, 0, 5). apply least_at_head.
    intros w Hin. unfold distance. apply sqrt_le_1_alt.
    destruct Hin as [<- | [<- | []]]; unfold wp_x, wp_y; cbn [fst snd];
      nra.
Qed.

Lemma np_arctan2_spec_path : np_arctan2 (0 - 0) (20 - 0) = 0.
Proof.
  unfold np_arctan2. destruct (Rlt_dec 0 (20 - 0)); [|lra].
  replace ((0 - 0) / (20 - 0)) with 0 by (unfold Rdiv; ring).
  apply atan_0.
Qed.

Lemma steer_ignores_offset_side_witness :
  exists steer,
    lateral_controller 0 2 0 5
      (update_values 0 2 0 5 0 1 (__init__ spec_path))
    = (Ok steer, update_values 0 2 0 5 0 1 (__init__ spec_path))
    /\ lateral_controller 0 (-2) 0 5
         (update_values 0 (-2) 0 5 0 1 (__init__ spec_path))
       = (Ok steer, update_values 0 (-2) 0 5 0 1 (__init__ spec_path)).
Proof.
  assert (nearest_index (update_values 0 2 0 5 0 1 (__init__ spec_path))
          = 0%Z) as H1.
  { apply nearest_index_beside_start; try reflexivity.
    cbn [update_values _current_y].
    unfold Rabs. destruct (Rcase_abs _); lra. }
  assert (nearest_index (update_values 0 (-2) 0 5 0 1 (__init__ spec_path))
          = 0%Z) as H2.
  { apply nearest_index_beside_start; try reflexivity.
    cbn [update_values _current_y].
    unfold Rabs. destruct (Rcase_abs _); lra. }
  apply (steer_ignores_offset_side
           (update_values 0 2 0 5 0 1 (__init__ spec_path))
           (update_values 0 (-2) 0 5 0 1 (__init__ spec_path))
           0 5 (0, 0, 5) (20, 0, 5)).
  - reflexivity.
  - rewrite H1, H2. reflexivity.
  - rewrite H1. reflexivity.
  - rewrite H1. reflexivity.
  - unfold laterr_of, wp_x, wp_y. cbn [fst snd update_values _current_x
      _current_y]. rewrite np_arctan2_spec_path, sin_0, cos_0. ring.
Defined.

Lemma np_arctan2_same_point (a b : R) : np_arctan2 (a - a) (b - b) = 0.
Proof.
  unfold np_arctan2. repeat destruct (Rlt_dec _ _); try lra.
Qed.

(** X9.  When the nearest waypoint is the last one, the look-ahead waypoint
    is that same waypoint: the path heading of line 219 is then
    [arctan2(0, 0) = 0] whatever the direction of the path, the heading
    error is the wrap of [- yaw], and the lateral offset is the difference
    of the y coordinates. *)
Theorem heading_collapses_at_last_waypoint (c : Controller2D)
    (x y yaw v : R) :
  _waypoints c <> [] ->
  nearest_index c = (Z.of_nat (length (_waypoints c)) - 1)%Z ->
  exists w,
    py_getitem (_waypoints c) (-1) = Some w
    /\ look_ahead (nearest_index c) (Z.of_nat (length (_waypoints c)))
       = nearest_index c
    /\ let theta_fai := normalize_theta_fai (- yaw) in
       let crosstrack_error :=
         if Rlt_dec 0 theta_fai then Rabs (_current_y c - wp_y w)
         else - Rabs (_current_y c - wp_y w) in
       lateral_controller x y yaw v c
       = (Ok (py_max_min (-1.22) 1.22
                (normalize_steer_expect
                   (np_add (yaw_diff_crosstrack crosstrack_error v)
                      theta_fai))), c).
Proof.
  intros Hne Hlast.
  assert (look_ahead (nearest_index c) (Z.of_nat (length (_waypoints c)))
          = nearest_index c) as Hidy.
  { rewrite Hlast. unfold look_ahead.
    destruct (Z.ltb_spec (Z.of_nat (length (_waypoints c)) - 1)
                (Z.of_nat (length (_waypoints c)) - 18)); [lia | reflexivity]. }
  pose proof (nearest_index_range c Hne) as Hidx.
  destruct (getitem_ok (_waypoints c) (nearest_index c)) as [w Hw]; [lia|].
  exists w. split; [|split; [exact Hidy|]].
  - rewrite py_getitem_last by exact Hne.
    destruct (py_getitem_nonneg _ _ Hidx) as [Hg _].
    rewrite <- Hlast, <- Hg. exact Hw.
  - cbv zeta.
    rewrite (lateral_controller_steer _ _ _ _ c w w Hw)
      by (rewrite Hidy; exact Hw).
    unfold steer_from. cbv zeta. rewrite np_arctan2_same_point, sin_0, cos_0.
    replace (0 - yaw) with (- yaw) by ring.
    replace ((_current_x c - wp_x w) * 0 + (_current_y c - wp_y w) * 1)
      with (_current_y c - wp_y w) by ring.
    reflexivity.
Qed.

Lemma heading_collapses_at_last_waypoint_witness :
  look_ahead (nearest_index far_example)
    (Z.of_nat (length (_waypoints far_example)))
  = nearest_index far_example.
Proof.
  destruct (heading_collapses_at_last_waypoint far_example 0 0 0 5)
    as (w & _ & H & _); [discriminate | | exact H].
  apply nearest_index_far.
  intros w [<- | [<- | []]]; cbn [far_example update_values _current_x
    _current_y]; rewrite distance_on_axis; lra.
Defined.

(** ** Cycles before the latch *)

Lemma declare_vars_steer_output_p m :
  declare_vars m !! "steer_output_p"
  = Some (default 0 (m !! "steer_output_p")).
Proof.
  unfold declare_vars. rewrite !create_var_lookup.
  repeat (case_decide; try done).
Qed.

(** X10.  A cycle before the latch is set, though it raises, has already
    looked up the desired speed and declared the persistent variables: it
    stores the target speed of the nearest waypoint in [_desired_speed],
    and the integral, the previous error and the previous steer output
    keep the values they had, or get the default 0 when they were not yet
    declared.  The integral does not grow during warm-up. *)
Theorem warmup_cycle_side_effects (c : Controller2D) :
  _start_control_loop c = false ->
  _waypoints c <> [] ->
  exists w c',
    nth_error (_waypoints c) (Z.to_nat (desired_speed_index c)) = Some w
    /\ update_controls c = (Raise UnboundLocalError, c')
    /\ _desired_speed c' = wp_v w
    /\ vars c' !! "e_total" = Some (default 0 (vars c !! "e_total"))
    /\ vars c' !! "e_previous" = Some (default 0 (vars c !! "e_previous"))
    /\ vars c' !! "steer_output_p"
       = Some (default 0 (vars c !! "steer_output_p")).
Proof.
  intros Hs Hne.
  destruct (update_controls_warmup c Hs Hne) as (w & Hw & ->).
  exists w. eexists. split; [exact Hw|]. split; [reflexivity|].
  cbn [set_vars set_desired_speed _desired_speed vars].
  split; [reflexivity|].
  rewrite !lookup_insert_ne by done.
  rewrite declare_vars_e_total, declare_vars_e_previous,
    declare_vars_steer_output_p.
  auto.
Qed.

Lemma warmup_cycle_side_effects_witness :
  exists w c',
    nth_error (_waypoints warmup_example)
      (Z.to_nat (desired_speed_index warmup_example)) = Some w
    /\ update_controls warmup_example = (Raise UnboundLocalError, c')
    /\ _desired_speed c' = wp_v w
    /\ vars c' !! "e_total"
       = Some (default 0 (vars warmup_example !! "e_total"))
    /\ vars c' !! "e_previous"
       = Some (default 0 (vars warmup_example !! "e_previous"))
    /\ vars c' !! "steer_output_p"
       = Some (default 0 (vars warmup_example !! "steer_output_p")).
Proof.
  apply (warmup_cycle_side_effects warmup_example);
    [reflexivity | discriminate].
Defined.

(** ** On the path line *)

Lemma py_getitem_nonempty {A} (l : list A) (i : Z) (a : A) :
  py_getitem l i = Some a -> l <> [].
Proof.
  intros H ->. unfold py_getitem in H. rewrite !nth_error_nil in H.
  repeat match type of H with
         | context [if ?b then _ else _] => destruct b
         end; discriminate.
Qed.

(** The steer of an active cycle, from the two waypoints the lateral
    controller finds. *)
Lemma active_cycle_steer (c : Controller2D) (wx wy : waypoint) :
  _start_control_loop c = true ->
  py_getitem (_waypoints c) (nearest_index c) = Some wx ->
  py_getitem (_waypoints c)
    (look_ahead (nearest_index c) (Z.of_nat (length (_waypoints c))))
  = Some wy ->
  let angle :=
    steer_from wx wy (_current_x c) (_current_y c) (_current_yaw c)
      (_current_speed c) in
  exists c',
    update_controls c = (Ok tt, c')
    /\ vars c' !! "steer_output_p" = Some angle
    /\ _set_steer c' = Rmax (Rmin (_conv_rad_to_steer * angle) 1) (-1).
Proof.
  intros Hs Hx Hy angle.
  pose proof (py_getitem_nonempty _ _ _ Hx) as Hne.
  destruct (update_controls_active c Hs Hne) as (w & steer & _ & Hl & ->).
  rewrite (lateral_controller_steer _ _ _ _ _ wx wy Hx Hy) in Hl.
  injection Hl as <-. eexists. split; [reflexivity|].
  cbn [active_state vars _set_steer]. split; [|reflexivity].
  apply lookup_insert_eq.
Qed.

Lemma steer_from_on_path_aligned (wx wy : waypoint) (x y v : R) :
  laterr_of wx wy x y = 0 ->
  v <> 0 ->
  steer_from wx wy x y
    (np_arctan2 (wp_y wy - wp_y wx) (wp_x wy - wp_x wx)) v = 0.
Proof.
  unfold laterr_of, steer_from. cbv zeta. intros Hl Hv. rewrite Hl.
  match goal with
  | |- context [normalize_theta_fai (?a - ?a)] =>
      replace (a - a) with 0 by ring
  end.
  rewrite normalize_theta_fai_0, Rabs_R0.
  destruct (Rlt_dec 0 0); [lra|].
  rewrite yaw_diff_crosstrack_moving by exact Hv.
  replace (5 * - 0 / v) with 0 by (field; exact Hv). rewrite atan_0.
  cbn [np_add]. rewrite normalize_steer_expect_finite.
  replace (0 + 0) with 0 by ring. rewrite normalize_theta_fai_0.
  unfold py_max_min. repeat destruct (Rlt_dec _ _); lra.
Qed.

(** X11.  A moving vehicle that is on the line through the nearest waypoint
    along the path heading, with its yaw equal to the path heading, gets
    the steering angle 0 and the steer command 0. *)
Theorem on_path_aligned_steer_zero (c : Controller2D) (wx wy : waypoint) :
  _start_control_loop c = true ->
  py_getitem (_waypoints c) (nearest_index c) = Some wx ->
  py_getitem (_waypoints c)
    (look_ahead (nearest_index c) (Z.of_nat (length (_waypoints c))))
  = Some wy ->
  laterr_of wx wy (_current_x c) (_current_y c) = 0 ->
  _current_yaw c = np_arctan2 (wp_y wy - wp_y wx) (wp_x wy - wp_x wx) ->
  _current_speed c <> 0 ->
  exists c',
    update_controls c = (Ok tt, c')
    /\ vars c' !! "steer_output_p" = Some 0
    /\ _set_steer c' = 0.
Proof.
  intros Hs Hx Hy Hl Hyaw Hv.
  destruct (active_cycle_steer c wx wy Hs Hx Hy) as (c' & Hu & Hp & Hc).
  rewrite Hyaw, (steer_from_on_path_aligned _ _ _ _ _ Hl Hv) in Hp, Hc.
  exists c'. split; [exact Hu|]. split; [exact Hp|].
  rewrite Hc, Rmult_0_r. unfold Rmax, Rmin.
  repeat destruct (Rle_dec _ _); lra.
Qed.

Lemma on_path_aligned_steer_zero_witness :
  exists c',
    update_controls cruise_example = (Ok tt, c')
    /\ vars c' !! "steer_output_p" = Some 0
    /\ _set_steer c' = 0.
Proof.
  apply (on_path_aligned_steer_zero cruise_example (0, 0, 5) (20, 0, 5)).
  - reflexivity.
  - rewrite nearest_index_at_start; reflexivity.
  - rewrite nearest_index_at_start; reflexivity.
  - unfold laterr_of, wp_x, wp_y. cbn [fst snd cruise_example update_values
      _current_x _current_y]. ring.
  - unfold wp_x, wp_y. cbn [fst snd cruise_example update_values
      _current_yaw]. symmetry. apply np_arctan2_spec_path.
  - cbn. lra.
Defined.

(** X12.  A vehicle at speed 0 with no lateral offset from the path line
    gets the steering angle 1.22 rad, the upper end of the range, whatever
    its yaw and the heading of the path: the quotient of line 243 is
    [0 / 0], and lines 251-252 turn the NaN into 1.22. *)
Theorem standstill_on_path_steers_full_angle (c : Controller2D)
    (wx wy : waypoint) :
  _start_control_loop c = true ->
  py_getitem (_waypoints c) (nearest_index c) = Some wx ->
  py_getitem (_waypoints c)
    (look_ahead (nearest_index c) (Z.of_nat (length (_waypoints c))))
  = Some wy ->
  laterr_of wx wy (_current_x c) (_current_y c) = 0 ->
  _current_speed c = 0 ->
  exists c',
    update_controls c = (Ok tt, c')
    /\ vars c' !! "steer_output_p" = Some 1.22
    /\ _set_steer c' = _conv_rad_to_steer * 1.22.
Proof.
  intros Hs Hx Hy Hl Hv.
  destruct (active_cycle_steer c wx wy Hs Hx Hy) as (c' & Hu & Hp & Hc).
  rewrite Hv, (steer_from_standstill_on_path _ _ _ _ _ Hl) in Hp, Hc.
  exists c'. split; [exact Hu|]. split; [exact Hp|].
  rewrite Hc. pose proof (conv_rad_to_steer_within 1.22 ltac:(lra)).
  unfold Rmax, Rmin. repeat destruct (Rle_dec _ _); lra.
Qed.

Lemma standstill_on_path_steers_full_angle_witness :
  exists c',
    update_controls (update_values 0 0 3 0 0 1 (__init__ spec_path))
    = (Ok tt, c')
    /\ vars c' !! "steer_output_p" = Some 1.22
    /\ _set_steer c' = _conv_rad_to_steer * 1.22.
Proof.
  apply (standstill_on_path_steers_full_angle
           (update_values 0 0 3 0 0 1 (__init__ spec_path))
           (0, 0, 5) (20, 0, 5)).
  - reflexivity.
  - rewrite nearest_index_at_start; reflexivity.
  - rewrite nearest_index_at_start; reflexivity.
  - unfold laterr_of, wp_x, wp_y. cbn [fst snd update_values _current_x
      _current_y]. ring.
  - reflexivity.
Defined.

(** ** When the latch is set *)

Lemma step_start_control_loop (c : Controller2D) (k : call) :
  _start_control_loop (step c k)
  = _start_control_loop c || observes_nonzero_frame k.
Proof.
  destruct k; cbn [step observes_nonzero_frame];
    try (cbn; by rewrite orb_false_r).
  - cbn. destruct (frame =? 0)%Z; cbn;
      [by rewrite orb_false_r | by rewrite orb_true_r].
  - rewrite orb_false_r.
    destruct (update_desired_speed_state c) as [ds [-> | ->]]; done.
  - rewrite orb_false_r.
    destruct (update_controls_cases c)
      as [-> | [(_ & -> & _) | (ds & steer & ->)]]; done.
Qed.

(** X13.  After any sequence of calls, [_start_control_loop] is set exactly
    when it was set before or one of the calls was an [update_values] with
    a non-zero frame index: on a new controller no other call, and no
    cycle, activates the control law. *)
Theorem latch_set_only_by_nonzero_frame (ks : list call)
    (c : Controller2D) :
  _start_control_loop (run ks c)
  = _start_control_loop c || existsb observes_nonzero_frame ks.
Proof.
  unfold run. revert c. induction ks as [|k ks IH]; intros c.
  - cbn. by rewrite orb_false_r.
  - cbn [fold_left existsb]. rewrite IH, step_start_control_loop.
    by rewrite orb_assoc.
Qed.

(** ** The command after repeated cycles *)

Lemma run_repeat_succ (n : nat) (c : Controller2D) :
  run (repeat Call_update_controls (S n)) c
  = step (run (repeat Call_update_controls n) c) Call_update_controls.
Proof.
  unfold run.
  change (step (fold_left step (repeat Call_update_controls n) c)
            Call_update_controls)
    with (fold_left step [Call_update_controls]
            (fold_left step (repeat Call_update_controls n) c)).
  rewrite <- fold_left_app. f_equal. cbn [repeat]. apply repeat_cons.
Qed.

(** X14.  While the pose and the path stay as they are, from the second
    active cycle on the derivative term is 0: the command of cycle [n + 1],
    for [n] at least 1, is the saturated output mapping of
    [K_p * e + K_i * (integral + (n + 1) * e)], where [e] is the speed
    error and [integral] the integral before the first cycle. *)
Theorem command_after_repeated_cycles (c : Controller2D) (n : nat) :
  _start_control_loop c = true ->
  _waypoints c <> [] ->
  (0 < n)%nat ->
  exists w,
    nth_error (_waypoints c) (Z.to_nat (desired_speed_index c)) = Some w
    /\ let e := wp_v w - _current_speed c in
       let target :=
         K_p * e
         + K_i * (Spec.integral (speed_state c) + INR (S n) * e) in
       let c' := run (repeat Call_update_controls (S n)) c in
       _set_throttle c'
       = Spec.saturate (if Rlt_dec target 0 then 0 else target)
       /\ _set_brake c'
          = Spec.saturate (if Rlt_dec target 0 then Rabs target else 0).
Proof.
  intros Hs Hne Hn. destruct (update_desired_speed_ok c Hne) as (w & Hw & _).
  exists w. split; [exact Hw|]. cbv zeta. rewrite run_repeat_succ.
  destruct (repeated_cycles c w Hs Hne Hw n c) as (Hsame & Hi & Hp);
    [repeat split|].
  cbv zeta in Hsame, Hi, Hp. specialize (Hp Hn).
  set (cn := run (repeat Call_update_controls n) c) in *.
  pose proof Hsame as (Hns & Hnw & _ & _ & Hnv).
  destruct (update_controls_active cn) as (w' & steer & Hw' & _ & Hu);
    [congruence | congruence |].
  rewrite (same_inputs_index _ _ Hsame), Hnw, Hw in Hw'.
  injection Hw' as <-. cbn [step]. rewrite Hu. cbn [snd].
  pose proof (active_state_outputs cn (wp_v w) steer) as Ho.
  cbv zeta in Ho.
  remember (active_state cn (wp_v w) steer) as c' eqn:Ec. clear Ec.
  unfold Spec.speed_controller, Spec.target_acceleration in Ho.
  rewrite Hi, Hp, Hnv in Ho. injection Ho as Ht Hb _ _.
  rewrite Ht, Hb.
  assert (forall a b : R, a = b ->
            Spec.saturate (if Rlt_dec a 0 then 0 else a)
            = Spec.saturate (if Rlt_dec b 0 then 0 else b)
            /\ Spec.saturate (if Rlt_dec a 0 then Rabs a else 0)
               = Spec.saturate (if Rlt_dec b 0 then Rabs b else 0))
    as Hcong by (intros a b ->; split; reflexivity).
  apply Hcong.
  unfold K_p, K_i, Spec.Kp, Spec.Ki, Spec.Kd, speed_state.
  cbn [Spec.integral]. rewrite S_INR. ring.
Qed.

Lemma command_after_repeated_cycles_witness :
  _set_throttle (run (repeat Call_update_controls 2) standstill_example) = 1
  /\ _set_brake (run (repeat Call_update_controls 2) standstill_example) = 0.
Proof.
  destruct (command_after_repeated_cycles standstill_example 1)
    as (w & Hw & Ht & Hb); [reflexivity | discriminate | lia |].
  cbv zeta in Ht, Hb. rewrite Ht, Hb, (spec_path_speed _ _ Hw).
  change (Spec.integral (speed_state standstill_example)) with 0.
  change (_current_speed standstill_example) with 0.
  unfold K_p, K_i, Spec.saturate. cbn [INR].
  repeat destruct (Rlt_dec _ _); lra.
Defined.
